(** * A perceptron branch predictor: the model of [branch_predictor.py]

    The file embeds the predictor classes ([BpPerceptron],
    [BpLambdaPerceptron], [TruePerceptron]) and the orchestrator
    ([BranchPredictor]) as functions over explicit state, and proves the
    properties of the history register, the counters, the replay buffer
    and the accuracy queries.

    Numbers.  Python [int] is [Z].  A numpy [float64] is a rational [Q]:
    the history register only ever holds 0.0 and 1.0, and with the default
    [eta = 1] every quantity of [TruePerceptron] is a small integer or a
    half, all of which binary64 represents exactly
    ([binary64_exact_on_integers]); for a learning rate that is not an
    integer the sums of [TruePerceptron] are the exact ones, which numpy
    only approximates, and what is proved about the size of a score is
    stated for integer weights and the default learning rate.  Where the
    program itself computes a value that binary64
    cannot represent, the rounding of each operation is kept explicit
    (class [Rounding], with binary64 itself as [binary64]): the 0.9 and
    0.1 of the moving accuracy, and the quotient of two counters that
    [get_accuracies] returns.

    Exceptions.  A method is a function [S -> result A * S]: it returns the
    state it leaves behind also when it raises, since Python keeps the
    mutations made before the exception. *)

From Stdlib Require Import ZArith QArith Qabs Qround Lqa Lia List String.
From stdpp Require Import base option list strings gmap.

Local Open Scope Z_scope.

(** ** Exceptions and the state-and-exception monad *)

Inductive exn : Set :=
  | IndexError
  | ValueError
  | ZeroDivisionError.

Inductive result (A : Type) : Type :=
  | Ok (a : A)
  | Raise (e : exn).
Arguments Ok {A} a.
Arguments Raise {A} e.

Definition is_ok {A} (r : result A) : bool :=
  match r with Ok _ => true | Raise _ => false end.

(** [M S A]: a method of an object with state [S] returning an [A]. *)
Definition M (S A : Type) : Type := S → result A * S.

#[export] Instance M_ret {S} : MRet (M S) := λ A a s, (Ok a, s).

#[export] Instance M_bind {S} : MBind (M S) := λ A B f m s,
  match m s with
  | (Ok a, s') => f a s'
  | (Raise e, s') => (Raise e, s')
  end.

Definition raise {S A} (e : exn) : M S A := λ s, (Raise e, s).
Definition gets {S A} (f : S → A) : M S A := λ s, (Ok (f s), s).
Definition modify {S} (f : S → S) : M S unit := λ s, (Ok tt, f s).

(** A pure computation that may raise, run inside a method. *)
Definition lift {S A} (r : result A) : M S A := λ s, (r, s).

(** ** The numpy operations the program uses *)

Definition b2q (b : bool) : Q := if b then 1%Q else 0%Q.

(** [np.sign]: -1, 0 or 1. *)
Definition np_sign (q : Q) : Q := inject_Z (Z.sgn (Qnum q)).

(** [np.roll(a, shift)] on a one-dimensional array:
    the element at index [i] moves to index [(i + shift) mod len]. *)
Definition np_roll {A} (a : list A) (shift : nat) : list A :=
  let k := (length a - shift `mod` length a)%nat in
  drop k a ++ take k a.

(** [a[i] = v]: numpy raises IndexError out of range. *)
Definition np_setitem {A} (a : list A) (i : nat) (v : A) : result (list A) :=
  if (i <? length a)%nat then Ok (<[i := v]> a) else Raise IndexError.

(** [a[i]] *)
Definition np_getitem {A} (a : list A) (i : nat) : result A :=
  match a !! i with
  | Some v => Ok v
  | None => Raise IndexError
  end.

Definition sum_Q (l : list Q) : Q := foldr Qplus 0%Q l.

(** [np.dot] of two one-dimensional arrays: ValueError when the shapes
    are not aligned. *)
Definition np_dot (a b : list Q) : result Q :=
  if (length a =? length b)%nat
  then Ok (sum_Q (zip_with Qmult a b))
  else Raise ValueError.

(** Python's [==] on two lists of floats. *)
Fixpoint list_Qeqb (a b : list Q) : bool :=
  match a, b with
  | [], [] => true
  | x :: a', y :: b' => Qeq_bool x y && list_Qeqb a' b'
  | _, _ => false
  end.

(** [l.index(x)], when [x in l]. *)
Fixpoint list_index (x : list Q) (l : list (list Q)) : option nat :=
  match l with
  | [] => None
  | x' :: l' => if list_Qeqb x' x then Some 0%nat
                else S <$> list_index x l'
  end.

(** ** The predictor interface

    What [BranchPredictor] asks of the class it is given as [preceptron]:
    [predict_and_update(X, y)], which mutates the predictor and returns
    the prediction.  The three classes return a numpy boolean or a float;
    both are read here as a number, [True] being 1 and [False] 0, which is
    how Python compares them with [condition]. *)

Class Perceptron (P : Type) := {
  predict_and_update : list Q → Z → M P Q
}.

(** ** TruePerceptron *)

Module TruePerceptron.

Record t : Type := mk {
  n : nat;
  eta : Q;
  weights : list Q
}.

(** [__init__(n, eta=1)] *)
Definition init (n : nat) (eta : Q) : t :=
  {| n := n; eta := eta; weights := replicate (n + 1) 0%Q |}.

Definition predict (X : list Q) : M t Q :=
  self ← gets id;
  d ← lift (np_dot (take (n self) (weights self)) X);
  b ← lift (np_getitem (weights self) (n self));
  mret (d + b)%Q.

(** The two in-place additions of the update. *)
Definition add_to_weights (y_scale : Q) (x_scale : list Q) (self : t) : t :=
  let w1 := zip_with Qplus (take (n self) (weights self))
              (map (λ x, (eta self * y_scale * x)%Q) x_scale)
            ++ drop (n self) (weights self) in
  let w2 := alter (λ b, (b + eta self * y_scale)%Q) (n self) w1 in
  {| n := n self; eta := eta self; weights := w2 |}.

Definition predict_and_update (X : list Q) (y : Z) : M t Q :=
  let x_scale := map (λ x, (2 * x - 1)%Q) X in
  let y_scale := inject_Z (2 * y - 1) in
  pred ← predict x_scale;
  let pred := np_sign pred in
  (if negb (Qeq_bool pred y_scale)
   then modify (add_to_weights y_scale x_scale)
   else mret tt);;
  mret ((np_sign pred + 1) / 2)%Q.

(** A perceptron over [k] features: [k + 1] weights, the bias last. *)
Definition well_formed (k : nat) (self : t) : Prop :=
  n self = k ∧ length (weights self) = (k + 1)%nat.

End TruePerceptron.

(** SignPerceptron.update in the words of the specification: from the
    feature weights, the bias, the features and the label to the new
    weights, the new bias and the decision. *)
Definition sign_perceptron_update (eta : Q) (weights : list Q) (bias : Q)
    (x : list Q) (label : Z) : list Q * Q * Q :=
  let x_scaled := map (λ v, (2 * v - 1)%Q) x in
  let label_scaled := inject_Z (2 * label - 1) in
  let pred := np_sign (sum_Q (zip_with Qmult weights x_scaled) + bias) in
  if Qeq_bool pred label_scaled
  then (weights, bias, ((pred + 1) / 2)%Q)
  else (zip_with (λ w v, (w + eta * label_scaled * v)%Q) weights x_scaled,
        (bias + eta * label_scaled)%Q,
        ((pred + 1) / 2)%Q).

#[export] Instance TruePerceptron_Perceptron : Perceptron TruePerceptron.t :=
  {| predict_and_update := TruePerceptron.predict_and_update |}.

(** ** The torch network behind the two gradient-trained predictors

    [ClassicalPerceptron] is a single [nn.Linear(n, 1)] trained by
    [optim.SGD]; both live in torch, outside the repository.  A [Net] is the
    pair of the module and its optimizer (parameters, accumulated gradients,
    and torch's random state); the methods below are the torch calls the
    program makes on it.  Nothing is assumed of them, so what is proved of
    the predictors holds whatever the floating-point arithmetic of torch
    does.  The feature vector always has the length the net was built for,
    so torch's shape errors are not part of the interface. *)

Class TorchNet (Net : Type) := {
  (** [self.net(torch.tensor(X))]: the score *)
  forward : Net → list Q → Q;
  (** [self.optimizer.zero_grad()] *)
  zero_grad : Net → Net;
  (** [loss = torch.abs(pred - y); loss.backward()], for the [pred] that
      [forward] gave on [X]: adds the gradient of the loss to the
      accumulated gradients *)
  backward_abs : Q → list Q → Z → Net → Net;
  (** [self.optimizer.step()] *)
  step : Net → Net;
  (** the body of [learning_round] once the sample is known to exist:
      draw [bs] indices without replacement, take the mean absolute error
      of the batch, [backward()] and [step()] *)
  minibatch : list (list Q) → list Z → nat → Net → Net
}.

Definition Qgt_bool (a b : Q) : bool := negb (Qle_bool a b).

(** ** BpPerceptron *)

Module BpPerceptron.
Section WithNet.
Context {Net : Type} {T : TorchNet Net}.

Record t : Type := mk { net : Net }.

Definition with_net (f : Net → Net) (self : t) : t :=
  {| net := f (net self) |}.

Definition predict (X : list Q) : M t Q :=
  gets (λ self, forward (net self) X).

Definition predict_and_update (X : list Q) (y : Z) : M t Q :=
  modify (with_net zero_grad);;
  pred ← predict X;
  modify (with_net (backward_abs pred X y));;
  modify (with_net step);;
  mret (b2q (Qgt_bool pred (1 # 2))).

End WithNet.
Arguments t : clear implicits.
End BpPerceptron.

#[export] Instance BpPerceptron_Perceptron {Net} `{TorchNet Net} :
  Perceptron (BpPerceptron.t Net) :=
  {| predict_and_update := BpPerceptron.predict_and_update |}.

(** ** BpLambdaPerceptron *)

Module BpLambdaPerceptron.
Section WithNet.
Context {Net : Type} {T : TorchNet Net}.

(** [rounds] is not a field of the class: it counts the calls of
    [learning_round], so that one can say when a round fires. *)
Record t : Type := mk {
  net : Net;
  example_history_x : list (list Q);
  example_history_y : list Z;
  lamb : Q;
  bs : nat;
  rounds : nat
}.

(** [__init__(n, lamb)], given the freshly initialised net *)
Definition init (net0 : Net) (lamb : Q) : t :=
  {| net := net0; example_history_x := []; example_history_y := [];
     lamb := lamb; bs := 16; rounds := 0 |}.

Definition with_net (f : Net → Net) (self : t) : t :=
  {| net := f (net self);
     example_history_x := example_history_x self;
     example_history_y := example_history_y self;
     lamb := lamb self; bs := bs self; rounds := rounds self |}.

Definition count_round (self : t) : t :=
  {| net := net self;
     example_history_x := example_history_x self;
     example_history_y := example_history_y self;
     lamb := lamb self; bs := bs self; rounds := S (rounds self) |}.

Definition append_example (X : list Q) (y : Z) (self : t) : t :=
  {| net := net self;
     example_history_x := example_history_x self ++ [X];
     example_history_y := example_history_y self ++ [y];
     lamb := lamb self; bs := bs self; rounds := rounds self |}.

Definition predict (X : list Q) : M t Q :=
  gets (λ self, forward (net self) X).

(** [np.random.choice(np.arange(len), size=bs, replace=False)] raises
    ValueError when the sample is larger than the population. *)
Definition learning_round : M t unit :=
  modify count_round;;
  modify (with_net zero_grad);;
  self ← gets id;
  if (length (example_history_x self) <? bs self)%nat
  then raise ValueError
  else modify (with_net (minibatch (example_history_x self)
                           (example_history_y self) (bs self))).

(** The test of line 87. *)
Definition round_due (self : t) : bool :=
  ((length (example_history_x self) + 1) `mod` (bs self + 1) =? 0)%nat.

Definition lambda_term (X : list Q) : M t Q :=
  self ← gets id;
  match list_index X (example_history_x self) with
  | Some i =>
      yi ← lift (np_getitem (example_history_y self) i);
      let preval := inject_Z (2 * yi - 1) in
      mret (lamb self * sum_Q (map (λ x, x ^ 2)%Q X) * preval)%Q
  | None => mret 0%Q
  end.

Definition predict_and_update (X : list Q) (y : Z) : M t Q :=
  modify (with_net zero_grad);;
  lambda_term ← lambda_term X;
  pred ← predict X;
  self ← gets id;
  (if round_due self then learning_round else mret tt);;
  modify (with_net (backward_abs pred X y));;
  modify (with_net step);;
  let decision := Qgt_bool (pred + lambda_term) (1 # 2) in
  (if negb (Z.b2z decision =? y)
   then modify (append_example X y)
   else mret tt);;
  mret (b2q decision).

(** The update of [(X, y)] in state [self] returns a decision that
    differs from the true outcome [y]. *)
Definition mispredicted (X : list Q) (y : Z) (self : t) : bool :=
  match fst (predict_and_update X y self) with
  | Ok p => negb (Qeq_bool p (inject_Z y))
  | Raise _ => false
  end.

(** A sequence of updates, each on the state the previous one left; an
    update that raises leaves its state to the next one. *)
Fixpoint updates (l : list (list Q * Z)) (self : t) : list (result Q) * t :=
  match l with
  | [] => ([], self)
  | (X, y) :: l' =>
      let '(r, self') := predict_and_update X y self in
      let '(rs, self'') := updates l' self' in
      (r :: rs, self'')
  end.

(** The two lists of the replay buffer go together. *)
Definition paired (self : t) : Prop :=
  length (example_history_x self) = length (example_history_y self).

Fixpoint all_mispredicted (l : list (list Q * Z)) (self : t) : bool :=
  match l with
  | [] => true
  | (X, y) :: l' =>
      mispredicted X y self
      && all_mispredicted l' (snd (predict_and_update X y self))
  end.

End WithNet.
Arguments t : clear implicits.
End BpLambdaPerceptron.

#[export] Instance BpLambdaPerceptron_Perceptron {Net} `{TorchNet Net} :
  Perceptron (BpLambdaPerceptron.t Net) :=
  {| predict_and_update := BpLambdaPerceptron.predict_and_update |}.

(** ** Floating-point rounding of the accuracies

    [fl x] is the binary64 value that an operation whose exact result is
    [x] delivers. *)

Class Rounding := fl : Q → Q.

(** What the proofs use of it: rounding is monotone, 0 and 1 are
    representable, and the sum that a hit on a moving accuracy of 1
    produces rounds to at most 1. *)
Class RoundingLaws `{Rounding} : Prop := {
  fl_mono : ∀ x y : Q, (x <= y)%Q → (fl x <= fl y)%Q;
  fl_0 : (fl 0 == 0)%Q;
  fl_1 : (fl 1 == 1)%Q;
  fl_full : (fl (fl (1 * fl (9 # 10)) + fl (1 # 10)) <= 1)%Q
}.

(** Exact arithmetic. *)
Definition exact : Rounding := λ x, x.

(** Round to the nearest integer, ties to the even one. *)
Definition round_half_even (q : Q) : Z :=
  let f := Qfloor q in
  match (q - inject_Z f ?= 1 # 2)%Q with
  | Lt => f
  | Gt => f + 1
  | Eq => if Z.even f then f else f + 1
  end.

(** Binary64 rounding of [x] counted in units of the smallest subnormal,
    [2^-1074]: below [2^53] units the representable values are the
    integers (the subnormals and the first binade of the normals); from
    [2^L] to [2^(L+1)] units, [L >= 53], they are the multiples of
    [2^(L-52)]. *)
Definition round_units (x : Q) : Z :=
  let s := Z.max (Z.log2 (Qfloor x) - 52) 0 in
  round_half_even (x / inject_Z (2 ^ s)) * 2 ^ s.

Definition units : Q := inject_Z (2 ^ 1074).

(** IEEE 754 binary64, round to nearest, ties to even, as Python and numpy
    compute.  A result beyond the largest finite double is not turned into
    an infinity; the moving accuracy stays far below. *)
Definition binary64 : Rounding := λ q,
  if Qle_bool 0 q
  then Qred (inject_Z (round_units (q * units)) / units)
  else Qred (- (inject_Z (round_units (- q * units)) / units)).

(** ** BranchPredictor *)

(** [d[k]] on a [defaultdict] that is only ever indexed: a missing key
    reads as the default.  (Reading it also stores the default under the
    key; as the counters and logs are never iterated, a missing key and a
    key that holds the default cannot be told apart, and the map stands for
    both.) *)
Definition dd_get {V} (d : V) (m : gmap string V) (k : string) : V :=
  default d (m !! k).

(** Python's [a / b] on integers: the double nearest to the quotient,
    ZeroDivisionError when [b] is 0. *)
Definition py_truediv {R : Rounding} (a b : Z) : result Q :=
  if b =? 0 then Raise ZeroDivisionError
  else Ok (fl (inject_Z a / inject_Z b)%Q).

Module BranchPredictor.
Section WithPerceptron.
Context {P : Type} {HP : Perceptron P} {R : Rounding}.

(** [default_factory] is the closure [lambda: preceptron(n, *argv)] of
    [self.perceptrons]; its argument is the tag for which the instance
    is made, since two torch predictors are not initialised alike. *)
Record t : Type := mk {
  global_history : list Q;
  total : gmap string Z;
  correct : gmap string Z;
  moving_accuracy : gmap string Q;
  taken_history : gmap string (list Z);
  prediction_history : gmap string (list Z);
  perceptrons : gmap string P;
  default_factory : string → P
}.

(** [__init__(n, preceptron, *argv)] *)
Definition init (n : nat) (preceptron : string → P) : t :=
  {| global_history := replicate n 0%Q;
     total := ∅; correct := ∅; moving_accuracy := ∅;
     taken_history := ∅; prediction_history := ∅;
     perceptrons := ∅; default_factory := preceptron |}.

Definition set_global_history (v : list Q) (self : t) : t :=
  mk v (total self) (correct self) (moving_accuracy self)
     (taken_history self) (prediction_history self) (perceptrons self)
     (default_factory self).
Definition set_total (v : gmap string Z) (self : t) : t :=
  mk (global_history self) v (correct self) (moving_accuracy self)
     (taken_history self) (prediction_history self) (perceptrons self)
     (default_factory self).
Definition set_correct (v : gmap string Z) (self : t) : t :=
  mk (global_history self) (total self) v (moving_accuracy self)
     (taken_history self) (prediction_history self) (perceptrons self)
     (default_factory self).
Definition set_moving_accuracy (v : gmap string Q) (self : t) : t :=
  mk (global_history self) (total self) (correct self) v
     (taken_history self) (prediction_history self) (perceptrons self)
     (default_factory self).
Definition set_taken_history (v : gmap string (list Z)) (self : t) : t :=
  mk (global_history self) (total self) (correct self)
     (moving_accuracy self) v (prediction_history self) (perceptrons self)
     (default_factory self).
Definition set_prediction_history (v : gmap string (list Z)) (self : t) : t :=
  mk (global_history self) (total self) (correct self)
     (moving_accuracy self) (taken_history self) v (perceptrons self)
     (default_factory self).
Definition set_perceptrons (v : gmap string P) (self : t) : t :=
  mk (global_history self) (total self) (correct self)
     (moving_accuracy self) (taken_history self) (prediction_history self)
     v (default_factory self).

(** [self.perceptrons[tag]]: the instance of the tag, made on first use. *)
Definition perceptron_of (self : t) (tag : string) : P :=
  default (default_factory self tag) (perceptrons self !! tag).

(** [self.perceptrons[tag].m(...)]: the entry exists afterwards, with
    whatever state [m] left in it, also when [m] raised. *)
Definition on_perceptron {A} (tag : string) (m : M P A) : M t A :=
  λ self,
    let '(r, perc) := m (perceptron_of self tag) in
    (r, set_perceptrons (<[tag := perc]> (perceptrons self)) self).

(** [update_history(condition)] *)
Definition update_history (condition : bool) : M t unit :=
  modify (λ self, set_global_history (np_roll (global_history self) 1) self);;
  gh ← gets global_history;
  gh' ← lift (np_setitem gh 0 (if condition then 1%Q else 0%Q));
  modify (set_global_history gh').

(** The body of [if tag:]. *)
Definition observe_tagged (condition : bool) (tag : string) : M t unit :=
  modify (λ self,
    set_total (<[tag := dd_get 0 (total self) tag + 1]> (total self)) self);;
  gh ← gets global_history;
  p ← on_perceptron tag (predict_and_update gh (Z.b2z condition));
  modify (λ self,
    set_moving_accuracy
      (<[tag := fl (dd_get 0%Q (moving_accuracy self) tag * fl (9 # 10))]>
         (moving_accuracy self)) self);;
  modify (λ self,
    set_taken_history
      (<[tag := dd_get [] (taken_history self) tag
                ++ [if condition then 1 else 0]]> (taken_history self)) self);;
  modify (λ self,
    set_prediction_history
      (<[tag := dd_get [] (prediction_history self) tag
                ++ [if Qeq_bool p 0 then 0 else 1]]>
         (prediction_history self)) self);;
  if Qeq_bool (b2q condition) p
  then
    modify (λ self,
      set_correct (<[tag := dd_get 0 (correct self) tag + 1]> (correct self))
        self);;
    modify (λ self,
      set_moving_accuracy
        (<[tag := fl (dd_get 0%Q (moving_accuracy self) tag + fl (1 # 10))]>
           (moving_accuracy self)) self)
  else mret tt.

(** Python's truth value of [tag]: [None] and the empty string are false. *)
Definition truthy (tag : option string) : bool :=
  match tag with
  | Some s => negb (String.eqb s "")
  | None => false
  end.

(** [__call__(condition, tag=None)] *)
Definition call (condition : bool) (tag : option string) : M t bool :=
  (if truthy tag
   then observe_tagged condition (default "" tag)
   else mret tt);;
  update_history condition;;
  mret condition.

(** [self.correct[key] / self.total[key]], the accuracy of one tag as
    [get_accuracies] and [print_accuracies] compute it. *)
Definition accuracy (self : t) (key : string) : result Q :=
  py_truediv (dd_get 0 (correct self) key) (dd_get 0 (total self) key).

(** The loop of [get_accuracies] over the keys of [self.perceptrons]. *)
Fixpoint accuracies (keys : list string) (self : t) (acc : gmap string Q)
  : result (gmap string Q) :=
  match keys with
  | [] => Ok acc
  | key :: keys' =>
      match accuracy self key with
      | Ok a => accuracies keys' self (<[key := a]> acc)
      | Raise e => Raise e
      end
  end.

(** [get_accuracies()].  The value returned does not depend on the order
    in which the keys are visited. *)
Definition get_accuracies (self : t)
  : result (gmap string Q * gmap string Q) :=
  match accuracies (map_to_list (perceptrons self)).*1 self ∅ with
  | Ok acc => Ok (acc, moving_accuracy self)
  | Raise e => Raise e
  end.

(** A driver: one call after the other, an exception caught and the next
    call made on the state it left. *)
Fixpoint run (calls : list (bool * option string)) (self : t)
  : list (result bool) * t :=
  match calls with
  | [] => ([], self)
  | (condition, tag) :: calls' =>
      let '(r, self') := call condition tag self in
      let '(rs, self'') := run calls' self' in
      (r :: rs, self'')
  end.

(** The call that line 158 makes on the predictor of [tag]. *)
Definition predictor_step (self : t) (condition : bool) (tag : string)
  : result Q * P :=
  predict_and_update (global_history self) (Z.b2z condition)
    (perceptron_of self tag).

(** PredictorTable.record in the words of the specification, for a
    prediction [p] of the outcome [condition]: count the observation, decay
    the moving accuracy, on a hit count it and add 0.1, log both. *)
Definition record (tag : string) (p : Q) (condition : bool) (self : t) : t :=
  let hit := Qeq_bool (b2q condition) p in
  let decayed := fl (dd_get 0%Q (moving_accuracy self) tag * fl (9 # 10)) in
  {| global_history := global_history self;
     total := <[tag := dd_get 0 (total self) tag + 1]> (total self);
     correct :=
       if hit
       then <[tag := dd_get 0 (correct self) tag + 1]> (correct self)
       else correct self;
     moving_accuracy :=
       <[tag := if hit then fl (decayed + fl (1 # 10)) else decayed]>
         (moving_accuracy self);
     taken_history :=
       <[tag := dd_get [] (taken_history self) tag
                ++ [if condition then 1 else 0]]> (taken_history self);
     prediction_history :=
       <[tag := dd_get [] (prediction_history self) tag
                ++ [if Qeq_bool p 0 then 0 else 1]]>
         (prediction_history self);
     perceptrons := perceptrons self;
     default_factory := default_factory self |}.

(** The three ways a call can go. *)
Inductive call_outcome (condition : bool) (tag : option string) (self : t)
  : result bool * t → Prop :=
  | outcome_untagged :
      truthy tag = false →
      call_outcome condition tag self
        ((update_history condition;; mret condition) self)
  | outcome_raise s e perc :
      tag = Some s → s ≠ "" →
      predictor_step self condition s = (Raise e, perc) →
      call_outcome condition tag self
        (Raise e,
         set_perceptrons (<[s := perc]> (perceptrons self))
           (set_total (<[s := dd_get 0 (total self) s + 1]> (total self))
              self))
  | outcome_ok s p perc :
      tag = Some s → s ≠ "" →
      predictor_step self condition s = (Ok p, perc) →
      call_outcome condition tag self
        ((update_history condition;; mret condition)
           (set_perceptrons (<[s := perc]> (perceptrons self))
              (record s p condition self))).

(** Hits never exceed observations. *)
Definition counters_ok (self : t) : Prop :=
  ∀ s, dd_get 0 (correct self) s ≤ dd_get 0 (total self) s.

(** The moving accuracy of every tag lies in [0, 1]. *)
Definition moving_accuracy_ok (self : t) : Prop :=
  ∀ s, (0 <= dd_get 0%Q (moving_accuracy self) s
        ∧ dd_get 0%Q (moving_accuracy self) s <= 1)%Q.

(** No count is negative, and every tag that has a predictor has been
    observed at least once. *)
Definition observed (self : t) : Prop :=
  ∀ s, 0 ≤ dd_get 0 (total self) s
       ∧ (is_Some (perceptrons self !! s) → 1 ≤ dd_get 0 (total self) s).

(** The exact ratio of hits to observations of a tag. *)
Definition ratio (self : t) (key : string) : Q :=
  (inject_Z (dd_get 0%Z (correct self) key)
   / inject_Z (dd_get 0%Z (total self) key))%Q.

(** The register has [n] cells and every predictor, made or yet to be
    made, satisfies [I]. *)
Definition shaped (n : nat) (I : P → Prop) (self : t) : Prop :=
  length (global_history self) = n
  ∧ (∀ s, I (perceptron_of self s)).

End WithPerceptron.
Arguments t : clear implicits.
End BranchPredictor.

(** The values the calls of a run returned, in order. *)
Fixpoint returned {A} (rs : list (result A)) : list A :=
  match rs with
  | [] => []
  | Ok a :: rs' => a :: returned rs'
  | Raise _ :: rs' => returned rs'
  end.

(** The conditions passed to those calls of a run that returned, in order:
    [calls] are the calls made and [rs] their results. *)
Fixpoint pushed (calls : list (bool * option string))
    (rs : list (result bool)) : list bool :=
  match calls, rs with
  | (condition, _) :: calls', Ok _ :: rs' => condition :: pushed calls' rs'
  | _ :: calls', Raise _ :: rs' => pushed calls' rs'
  | _, _ => []
  end.

(** ** A linear net with plain SGD, in exact arithmetic

    One instance of [TorchNet]: [nn.Linear(n, 1)] with the closed-form
    gradient of the absolute error, stepped by [lr].  The mini-batch is the
    first [bs] examples of the buffer, one of the samples that
    [np.random.choice] can draw. *)

Module LinearSGD.

Record t : Type := mk {
  weight : list Q;
  bias : Q;
  grad_w : list Q;
  grad_b : Q;
  lr : Q
}.

Definition init (n : nat) : t :=
  {| weight := replicate n 0%Q; bias := 0%Q;
     grad_w := replicate n 0%Q; grad_b := 0%Q; lr := (1 # 1000)%Q |}.

Definition score (net : t) (X : list Q) : Q :=
  (sum_Q (zip_with Qmult (weight net) X) + bias net)%Q.

Definition clear (net : t) : t :=
  {| weight := weight net; bias := bias net;
     grad_w := map (λ _, 0%Q) (grad_w net); grad_b := 0%Q; lr := lr net |}.

(** Add [c * d|score - y|/d(weight, bias)] to the gradients. *)
Definition accumulate (c pred : Q) (X : list Q) (y : Z) (net : t) : t :=
  let s := (c * np_sign (pred - inject_Z y))%Q in
  {| weight := weight net; bias := bias net;
     grad_w := zip_with (λ g x, (g + s * x)%Q) (grad_w net) X;
     grad_b := (grad_b net + s)%Q; lr := lr net |}.

Definition descend (net : t) : t :=
  {| weight := zip_with (λ w g, (w - lr net * g)%Q) (weight net) (grad_w net);
     bias := (bias net - lr net * grad_b net)%Q;
     grad_w := grad_w net; grad_b := grad_b net; lr := lr net |}.

Definition batch (xs : list (list Q)) (ys : list Z) (bs : nat) (net : t) : t :=
  let c := (1 / inject_Z (Z.of_nat bs))%Q in
  descend
    (foldl (λ acc xy, accumulate c (score net xy.1) xy.1 xy.2 acc) net
       (take bs (zip xs ys))).

End LinearSGD.

#[export] Instance LinearSGD_TorchNet : TorchNet LinearSGD.t :=
  {| forward := LinearSGD.score;
     zero_grad := LinearSGD.clear;
     backward_abs := LinearSGD.accumulate 1;
     step := LinearSGD.descend;
     minibatch := LinearSGD.batch |}.

(** A predictor that only records what it is given: its state is the list
    of the feature vectors and labels of its updates, oldest first. *)
#[export] Instance Recorder : Perceptron (list (list Q * Z)) :=
  {| predict_and_update := λ X y seen, (Ok 0%Q, seen ++ [(X, y)]) |}.

(** ** What a run is made of *)

(** The conditions of the calls of a run that carry the tag [s], in order. *)
Definition conditions_tagged (s : string) (calls : list (bool * option string))
  : list bool :=
  (filter (λ c, c.2 = Some s) calls).*1.

(** The number of positions at which the two logs of a tag agree. *)
Definition agreements (taken predicted : list Z) : Z :=
  Z.of_nat (length (filter (λ tp, tp.1 = tp.2) (zip taken predicted))).

(** A register of zeros and ones. *)
Definition binary (X : list Q) : Prop := Forall (λ x, x = 0%Q ∨ x = 1%Q) X.

(** * Proofs *)

(** ** Lists, maps and numbers *)

Example np_roll_by_one : np_roll [1; 2; 3; 4] 1 = [4; 1; 2; 3].
Proof. reflexivity. Qed.

Example np_roll_wraps : np_roll [1; 2; 3] 5 = [2; 3; 1].
Proof. reflexivity. Qed.

Lemma length_np_roll {A} (a : list A) (k : nat) :
  length (np_roll a k) = length a.
Proof.
  unfold np_roll. rewrite length_app, length_drop, length_take. lia.
Qed.

(** Rolling by one and writing cell 0 is a shift: the new value in front,
    the last cell dropped. *)
Lemma np_roll_setitem {A} (a : list A) (v : A) :
  a ≠ [] → np_setitem (np_roll a 1) 0 v = Ok (take (length a) (v :: a)).
Proof.
  intros Ha. unfold np_setitem.
  rewrite length_np_roll.
  destruct a as [|x a]; [done|]. simpl length.
  replace (0 <? S (length a))%nat with true by (symmetry; apply Nat.ltb_lt; lia).
  f_equal. unfold np_roll. simpl length.
  destruct a as [|x' a].
  - reflexivity.
  - replace (1 `mod` S (length (x' :: a)))%nat with 1%nat
      by (symmetry; apply Nat.mod_small; simpl; lia).
    replace (S (length (x' :: a)) - 1)%nat with (length (x' :: a)) by lia.
    assert (Hd : ∃ z, drop (length (x' :: a)) (x :: x' :: a) = [z]).
    { assert (Hl : length (drop (length (x' :: a)) (x :: x' :: a)) = 1%nat)
        by (rewrite length_drop; simpl; lia).
      destruct (drop (length (x' :: a)) (x :: x' :: a)) as [|z [|??]];
        simpl in Hl; try lia. by exists z. }
    destruct Hd as [z ->]. reflexivity.
Qed.

Lemma dd_get_insert {V} (d : V) (m : gmap string V) (k k' : string) (v : V) :
  dd_get d (<[k := v]> m) k' = if decide (k = k') then v else dd_get d m k'.
Proof.
  unfold dd_get. rewrite lookup_insert. by case_decide.
Qed.

Lemma dd_get_empty {V} (d : V) (k : string) : dd_get d ∅ k = d.
Proof. unfold dd_get. by rewrite lookup_empty. Qed.

Lemma take_app_take {A} (n : nat) (l m : list A) :
  take n (l ++ take n m) = take n (l ++ m).
Proof.
  rewrite !take_app, take_take. do 2 f_equal. lia.
Qed.

Lemma list_index_lt x l i : list_index x l = Some i → (i < length l)%nat.
Proof.
  revert i. induction l as [|x' l IH]; intros i; simpl; [done|].
  destruct (list_Qeqb x' x).
  - intros [= <-]. lia.
  - destruct (list_index x l) as [j|]; simpl; [|done].
    intros [= <-]. specialize (IH j eq_refl). lia.
Qed.

(** The quotient by [m] goes up by one exactly at the multiples of [m]. *)
Lemma succ_div (k m : nat) :
  (0 < m)%nat →
  ((k + 1) / m = k / m + (if ((k + 1) `mod` m =? 0)%nat then 1 else 0))%nat.
Proof.
  intros Hm.
  pose proof (Nat.div_mod_eq k m) as Hk.
  pose proof (Nat.div_mod_eq (k + 1) m) as Hk1.
  pose proof (Nat.mod_upper_bound k m ltac:(lia)) as Hb.
  pose proof (Nat.mod_upper_bound (k + 1) m ltac:(lia)) as Hb1.
  destruct (((k + 1) `mod` m =? 0)%nat) eqn:E.
  - apply Nat.eqb_eq in E. nia.
  - apply Nat.eqb_neq in E. nia.
Qed.

Lemma py_truediv_nonzero {R : Rounding} a b :
  b ≠ 0 → py_truediv a b = Ok (fl (inject_Z a / inject_Z b)%Q).
Proof. intros Hb. unfold py_truediv. by apply Z.eqb_neq in Hb as ->. Qed.

Lemma np_sign_idem q : np_sign (np_sign q) = np_sign q.
Proof. unfold np_sign. simpl. by destruct (Qnum q). Qed.

Lemma np_sign_cases q :
  np_sign q = (-1)%Q ∨ np_sign q = 0%Q ∨ np_sign q = 1%Q.
Proof. unfold np_sign. destruct (Qnum q); simpl; auto. Qed.

Lemma np_sign_zero q : np_sign q = 0%Q ↔ (q == 0)%Q.
Proof.
  unfold np_sign, Qeq. destruct q as [[|a|a] d]; simpl; split; try done.
Qed.

Lemma sum_Q_zero_weights (n : nat) (xs : list Q) :
  Qnum (sum_Q (zip_with Qmult (replicate n 0%Q) xs)) = 0.
Proof.
  revert xs. induction n as [|n IH]; intros [|x xs]; simpl; try done.
  rewrite IH. lia.
Qed.

Lemma b2q_neq_label (d : bool) (y : Z) :
  negb (Qeq_bool (b2q d) (inject_Z y)) = negb (Z.b2z d =? y).
Proof.
  f_equal. unfold Qeq_bool, b2q. destruct d; simpl; by rewrite Z.mul_1_r.
Qed.

(** ** Binary64 rounding *)

(** The doubles of 0.9 and 0.1, a tie that goes to the even mantissa, and
    a subnormal. *)
Example binary64_literals :
  @fl binary64 (9 # 10) = (8106479329266893 # 9007199254740992)%Q
  ∧ @fl binary64 (1 # 10) = (3602879701896397 # 36028797018963968)%Q
  ∧ @fl binary64 (- (1 # 3)) = (- 6004799503160661 # 18014398509481984)%Q.
Proof. vm_compute. repeat split. Qed.

Example binary64_ties_to_even :
  @fl binary64 (inject_Z (2 ^ 53 + 1)) = inject_Z (2 ^ 53)
  ∧ @fl binary64 (inject_Z (2 ^ 53 + 3)) = inject_Z (2 ^ 53 + 4)
  ∧ @fl binary64 (inject_Z (2 ^ 54 - 1)) = inject_Z (2 ^ 54).
Proof. vm_compute. repeat split. Qed.

Example binary64_subnormal :
  (@fl binary64 ((7 # 3) / inject_Z (2 ^ 1070)) == 37 / inject_Z (2 ^ 1074))%Q.
Proof. vm_compute. reflexivity. Qed.

Lemma round_half_even_bounds q :
  Qfloor q ≤ round_half_even q ≤ Qfloor q + 1.
Proof.
  unfold round_half_even. cbv zeta.
  destruct (q - inject_Z (Qfloor q) ?= 1 # 2)%Q;
    [destruct (Z.even _)| |]; lia.
Qed.

Lemma round_half_even_Z z : round_half_even (inject_Z z) = z.
Proof.
  unfold round_half_even. cbv zeta. rewrite Qfloor_Z.
  replace (inject_Z z - inject_Z z ?= 1 # 2)%Q with Lt; [done|].
  symmetry. apply Qlt_alt.
  assert (E : (inject_Z z - inject_Z z == 0)%Q) by ring.
  by rewrite E.
Qed.

Lemma round_half_even_mono x y :
  (x <= y)%Q → round_half_even x ≤ round_half_even y.
Proof.
  intros Hxy. pose proof (Qfloor_resp_le _ _ Hxy) as Hf.
  destruct (decide (Qfloor x = Qfloor y)) as [Heq|Hne].
  - unfold round_half_even. cbv zeta. rewrite <- Heq.
    destruct (x - inject_Z (Qfloor x) ?= 1 # 2)%Q eqn:Hx;
      destruct (y - inject_Z (Qfloor x) ?= 1 # 2)%Q eqn:Hy;
      try (destruct (Z.even (Qfloor x))); try lia;
      exfalso;
      repeat match goal with
        | H : (_ ?= _)%Q = Eq |- _ => apply Qeq_alt in H
        | H : (_ ?= _)%Q = Lt |- _ => apply Qlt_alt in H
        | H : (_ ?= _)%Q = Gt |- _ => apply Qgt_alt in H
        end; lra.
  - pose proof (round_half_even_bounds x). pose proof (round_half_even_bounds y).
    lia.
Qed.

Lemma pow2_Q_pos s : 0 ≤ s → (0 < inject_Z (2 ^ s))%Q.
Proof.
  intros Hs. change 0%Q with (inject_Z 0). rewrite <- Zlt_Qlt.
  by apply Z.pow_pos_nonneg.
Qed.

Lemma round_units_mono x y : (x <= y)%Q → round_units x ≤ round_units y.
Proof.
  intros Hxy. unfold round_units. cbv zeta.
  pose proof (Qfloor_resp_le _ _ Hxy) as Hf.
  pose proof (Z.log2_le_mono _ _ Hf) as Hlog.
  set (sx := Z.max (Z.log2 (Qfloor x) - 52) 0).
  set (sy := Z.max (Z.log2 (Qfloor y) - 52) 0).
  assert (Hsx : 0 ≤ sx) by lia. assert (Hsy : 0 ≤ sy) by lia.
  pose proof (pow2_Q_pos sx Hsx) as Hpx.
  pose proof (pow2_Q_pos sy Hsy) as Hpy.
  destruct (decide (sx = sy)) as [Heq|Hne].
  - rewrite <- Heq. apply Z.mul_le_mono_nonneg_r; [by apply Z.pow_nonneg|].
    apply round_half_even_mono.
    apply Qmult_le_compat_r; [done|]. apply Qinv_le_0_compat. lra.
  - set (L := Z.log2 (Qfloor y)) in *.
    assert (HL : sy = L - 52 ∧ 53 ≤ L ∧ Z.log2 (Qfloor x) < L) by lia.
    destruct HL as (Hsy' & HL & Hlx).
    apply Z.le_trans with (2 ^ L).
    + (* the rounding of [x] does not pass the power of two above it *)
      assert (Hfx : Qfloor x < 2 ^ L).
      { destruct (Z.le_gt_cases (Qfloor x) 0) as [Hneg|Hpos].
        - pose proof (Z.pow_pos_nonneg 2 L). lia.
        - by apply Z.log2_lt_pow2. }
      assert (Hx : (x <= inject_Z (2 ^ (L - sx)) * inject_Z (2 ^ sx))%Q).
      { rewrite <- inject_Z_mult, <- Z.pow_add_r by lia.
        replace (L - sx + sx) with L by lia.
        apply Qle_trans with (inject_Z (Qfloor x + 1)).
        - apply Qlt_le_weak, Qlt_floor.
        - rewrite <- Zle_Qle. lia. }
      apply Qle_shift_div_r in Hx; [|done].
      apply round_half_even_mono in Hx. rewrite round_half_even_Z in Hx.
      replace (2 ^ L) with (2 ^ (L - sx) * 2 ^ sx)
        by (rewrite <- Z.pow_add_r by lia; f_equal; lia).
      apply Z.mul_le_mono_nonneg_r; [by apply Z.pow_nonneg|done].
    + (* the rounding of [y] does not fall below the power of two under it *)
      assert (Hfy : 2 ^ L ≤ Qfloor y).
      { apply Z.log2_spec. destruct (Z.le_gt_cases (Qfloor y) 0) as [Hneg|Hpos];
          [|done]. pose proof (Z.log2_nonpos _ Hneg). lia. }
      assert (Hy : (inject_Z (2 ^ 52) * inject_Z (2 ^ sy) <= y)%Q).
      { rewrite <- inject_Z_mult, <- Z.pow_add_r by lia.
        replace (52 + sy) with L by lia.
        apply Qle_trans with (inject_Z (Qfloor y)).
        - by rewrite <- Zle_Qle.
        - apply Qfloor_le. }
      apply Qle_shift_div_l in Hy; [|done].
      apply round_half_even_mono in Hy. rewrite round_half_even_Z in Hy.
      replace (2 ^ L) with (2 ^ 52 * 2 ^ sy)
        by (rewrite <- Z.pow_add_r by lia; f_equal; lia).
      apply Z.mul_le_mono_nonneg_r; [by apply Z.pow_nonneg|done].
Qed.

Lemma units_pos : (0 < units)%Q.
Proof. by apply pow2_Q_pos. Qed.

Lemma in_units_mono x y :
  (x <= y)%Q →
  (inject_Z (round_units (x * units)) / units
   <= inject_Z (round_units (y * units)) / units)%Q.
Proof.
  intros Hxy. pose proof units_pos.
  apply Qmult_le_compat_r; [|apply Qinv_le_0_compat; lra].
  rewrite <- Zle_Qle. apply round_units_mono.
  apply Qmult_le_compat_r; [done|lra].
Qed.

Lemma in_units_nonneg x :
  (0 <= x)%Q → (0 <= inject_Z (round_units (x * units)) / units)%Q.
Proof.
  intros Hx. pose proof (in_units_mono 0 x Hx) as Hm.
  eapply Qle_trans; [|exact Hm]. by vm_compute.
Qed.

(** Binary64 rounding satisfies the laws: the sum of the doubles of 0.9
    and 0.1 rounds to 1. *)
Lemma binary64_laws : @RoundingLaws binary64.
Proof.
  split.
  - intros x y Hxy. unfold fl, binary64.
    destruct (Qle_bool 0 x) eqn:Hx; destruct (Qle_bool 0 y) eqn:Hy;
      rewrite !Qred_correct.
    + by apply in_units_mono.
    + apply Qle_bool_iff in Hx.
      assert (Hy' : ¬ (0 <= y)%Q) by (rewrite <- Qle_bool_iff; congruence).
      lra.
    + assert (Hx' : ¬ (0 <= x)%Q) by (rewrite <- Qle_bool_iff; congruence).
      apply Qle_bool_iff in Hy.
      pose proof (in_units_nonneg (- x) ltac:(lra)).
      pose proof (in_units_nonneg y Hy). lra.
    + pose proof (in_units_mono (- y) (- x) ltac:(lra)). lra.
  - by vm_compute.
  - by vm_compute.
  - by vm_compute.
Qed.

(** Rounding does not tell apart two fractions of the same value. *)
Lemma round_units_proper x y : (x == y)%Q → round_units x = round_units y.
Proof.
  intros Hxy. apply Z.le_antisymm; apply round_units_mono; lra.
Qed.

Lemma round_half_even_proper x y :
  (x == y)%Q → round_half_even x = round_half_even y.
Proof.
  intros Hxy. apply Z.le_antisymm; apply round_half_even_mono; lra.
Qed.

(** A whole number of at most 53 bits, counted in units, is its own
    rounding. *)
Lemma round_units_integer z :
  0 ≤ z < 2 ^ 53 → round_units (inject_Z (z * 2 ^ 1074)) = z * 2 ^ 1074.
Proof.
  intros [Hz0 Hz]. unfold round_units. cbv zeta. rewrite Qfloor_Z.
  destruct (decide (z = 0)) as [->|Hnz]; [by vm_compute|].
  rewrite Z.log2_mul_pow2 by lia.
  assert (Hlog : 0 ≤ Z.log2 z < 53).
  { split; [apply Z.log2_nonneg|]. apply Z.log2_lt_pow2; lia. }
  set (s := Z.max (1074 + Z.log2 z - 52) 0).
  assert (Hs : 0 ≤ s ≤ 1074) by lia.
  pose proof (pow2_Q_pos s ltac:(lia)) as Hpos.
  assert (E : (inject_Z (z * 2 ^ 1074) / inject_Z (2 ^ s)
               == inject_Z (z * 2 ^ (1074 - s)))%Q).
  { replace (z * 2 ^ 1074) with (z * 2 ^ (1074 - s) * 2 ^ s).
    - rewrite (inject_Z_mult _ (2 ^ s)). field. lra.
    - rewrite <- Z.mul_assoc, <- Z.pow_add_r by lia.
      do 2 f_equal. lia. }
  rewrite (round_half_even_proper _ _ E), round_half_even_Z.
  rewrite <- Z.mul_assoc, <- Z.pow_add_r by lia.
  do 2 f_equal. lia.
Qed.

(** Binary64 represents every integer below [2^53] in magnitude: on such
    values the arithmetic of numpy is the exact one. *)
Lemma binary64_exact_on_integers z :
  Z.abs z < 2 ^ 53 → (@fl binary64 (inject_Z z) == inject_Z z)%Q.
Proof.
  intros Hz. pose proof units_pos as Hu. unfold fl, binary64.
  destruct (Qle_bool 0 (inject_Z z)) eqn:Hsign; rewrite Qred_correct.
  - apply Qle_bool_iff in Hsign. change 0%Q with (inject_Z 0) in Hsign.
    rewrite <- Zle_Qle in Hsign.
    rewrite (round_units_proper _ (inject_Z (z * 2 ^ 1074)))
      by (unfold units; by rewrite inject_Z_mult).
    rewrite round_units_integer by lia.
    rewrite inject_Z_mult. fold units. field. lra.
  - assert (Hneg : z < 0).
    { destruct (Z.lt_ge_cases z 0) as [|Hge]; [done|].
      assert (Hle : (0 <= inject_Z z)%Q)
        by (change 0%Q with (inject_Z 0); by rewrite <- Zle_Qle).
      apply Qle_bool_iff in Hle. congruence. }
    rewrite (round_units_proper _ (inject_Z (- z * 2 ^ 1074)))
      by (unfold units; rewrite inject_Z_mult, inject_Z_opp; reflexivity).
    rewrite round_units_integer by lia.
    rewrite inject_Z_mult, inject_Z_opp. fold units. field. lra.
Qed.

(** ** TruePerceptron *)

Section TruePerceptronProofs.
Import TruePerceptron.

(** The code of [predict_and_update] computes the update of the
    specification, on the feature weights [w] and the bias [b]. *)
Lemma TruePerceptron_update_refines eta w b X y :
  length X = length w →
  predict_and_update X y {| n := length w; eta := eta; weights := w ++ [b] |} =
    let '(w', b', d) := sign_perceptron_update eta w b X y in
    (Ok d, {| n := length w; eta := eta; weights := w' ++ [b'] |}).
Proof.
  intros HX.
  unfold predict_and_update, predict, sign_perceptron_update,
    mbind, M_bind, mret, M_ret, gets, lift, modify. simpl.
  rewrite take_app_length.
  unfold np_dot. rewrite length_map, HX, Nat.eqb_refl. simpl.
  unfold np_getitem. rewrite lookup_app_r, Nat.sub_diag by lia. simpl.
  rewrite np_sign_idem.
  destruct (Qeq_bool _ _); simpl; [done|].
  unfold add_to_weights. simpl.
  rewrite take_app_length, drop_app_length.
  f_equal. f_equal.
  rewrite zip_with_fmap_r.
  rewrite (alter_app_r_alt _ _ [b]) by (rewrite length_zip_with, length_map; lia).
  rewrite length_zip_with, length_map, HX, Nat.min_id, Nat.sub_diag.
  reflexivity.
Qed.

Lemma well_formed_split k self :
  well_formed k self →
  ∃ w b, length w = k
         ∧ self = {| n := length w; eta := eta self; weights := w ++ [b] |}.
Proof.
  intros [Hn Hw]. destruct self as [n' e ws]. simpl in *. subst n'.
  induction ws as [|b w _] using rev_ind.
  - simpl in Hw. lia.
  - rewrite length_app in Hw. simpl in Hw.
    exists w, b. split; [lia|]. f_equal. lia.
Qed.

Lemma init_well_formed k eta : well_formed k (init k eta).
Proof. split; [done|]. simpl. by rewrite length_replicate. Qed.

(** On a feature vector of the right length the update returns, and
    leaves a perceptron of the same shape. *)
Lemma TruePerceptron_update_total k self X y :
  well_formed k self → length X = k →
  is_ok (predict_and_update X y self).1 = true
  ∧ well_formed k (predict_and_update X y self).2.
Proof.
  intros Hwf HX.
  destruct (well_formed_split k self Hwf) as (w & b & Hw & ->). simpl.
  rewrite TruePerceptron_update_refines by lia.
  unfold sign_perceptron_update.
  destruct (Qeq_bool _ _); simpl; (split; [done|]);
    split; simpl; rewrite ?length_app, ?length_zip_with, ?length_map; simpl; lia.
Qed.

(** The decision of the specification is 0 or 1 unless the score is
    exactly zero, where it is a half. *)
Lemma sign_perceptron_decision eta w b X y :
  let score :=
    (sum_Q (zip_with Qmult w (map (λ v, (2 * v - 1)%Q) X)) + b)%Q in
  let d := (sign_perceptron_update eta w b X y).2 in
  ((score == 0)%Q → d = (1 # 2)%Q)
  ∧ (¬ (score == 0)%Q → (d == 0)%Q ∨ (d == 1)%Q).
Proof.
  intros score d. subst d. unfold sign_perceptron_update. fold score.
  split.
  - intros Hz. apply np_sign_zero in Hz. rewrite Hz.
    by destruct (Qeq_bool _ _).
  - intros Hnz. rewrite <- np_sign_zero in Hnz.
    destruct (np_sign_cases score) as [Hs|[Hs|Hs]]; [|done|];
      rewrite Hs; destruct (Qeq_bool _ _); simpl;
      solve [left; by compute | right; by compute].
Qed.

(** A fresh perceptron scores 0 on every input, and the update then
    returns a half. *)
Lemma fresh_update_half k eta X y :
  length X = k →
  (predict_and_update X y (init k eta)).1 = Ok (1 # 2)%Q.
Proof.
  intros HX. unfold init.
  replace (replicate (k + 1) 0%Q) with (replicate k 0%Q ++ [0%Q])
    by (rewrite Nat.add_1_r; symmetry; apply replicate_cons_app).
  rewrite <- (length_replicate k 0%Q) at 1.
  rewrite TruePerceptron_update_refines by (by rewrite length_replicate).
  unfold sign_perceptron_update.
  assert (Hs : np_sign
            (sum_Q (zip_with Qmult (replicate k 0%Q)
                      (map (λ v : Q, (2 * v - 1)%Q) X)) + 0) = 0%Q).
  { unfold np_sign. simpl. rewrite sum_Q_zero_weights. reflexivity. }
  rewrite Hs. by destruct (Qeq_bool _ _).
Qed.

(** C3 (fails on the code): the update is the one the specification
    describes ([TruePerceptron_update_refines]), but its result is not always
    a 0/1 decision.  On a fresh perceptron, whose weights are all zero, the
    score is 0, [np.sign] gives 0 and the update returns 1/2, for every
    feature vector and either label. *)
Theorem TruePerceptron_tie_returns_half k eta X y :
  length X = k →
  (predict_and_update X y (init k eta)).1 = Ok (1 # 2)%Q.
Proof. apply fresh_update_half. Qed.

(** The prediction returned does not depend on the label. *)
Lemma TruePerceptron_prediction_ignores_label X y y' self :
  (predict_and_update X y self).1 = (predict_and_update X y' self).1.
Proof.
  unfold predict_and_update, mbind, M_bind, mret, M_ret, modify.
  destruct (predict _ self) as [[pred|e] self1]; [|done].
  by do 2 destruct (negb _).
Qed.

End TruePerceptronProofs.

Lemma TruePerceptron_tie_returns_half_witness :
  length [0%Q; 0%Q] = 2%nat
  ∧ (TruePerceptron.predict_and_update [0%Q; 0%Q] 1
       (TruePerceptron.init 2 1)).1 = Ok (1 # 2)%Q.
Proof.
  split; [reflexivity|].
  apply (TruePerceptron_tie_returns_half 2 1 [0%Q; 0%Q] 1). reflexivity.
Defined.

(** Two updates from the fresh state with label 1: on [0, 0] the score is
    0, the weights move to [-1, -1, 1] and the result is a half; on [1, 0]
    the score is then 1, nothing moves and the result is 1. *)
Example TruePerceptron_two_updates :
  let r1 := TruePerceptron.predict_and_update [0%Q; 0%Q] 1
              (TruePerceptron.init 2 1) in
  let r2 := TruePerceptron.predict_and_update [1%Q; 0%Q] 1 r1.2 in
  r1.1 = Ok (1 # 2)%Q
  ∧ Qred <$> TruePerceptron.weights r1.2 = [(-1)%Q; (-1)%Q; 1%Q]
  ∧ match r2.1 with Ok d => Qred d = 1%Q | Raise _ => False end
  ∧ r2.2 = r1.2.
Proof. vm_compute. repeat split. Qed.

(** ** BpLambdaPerceptron *)

Section BpLambdaPerceptronProofs.
Context {Net : Type} {T : TorchNet Net}.
Import BpLambdaPerceptron.
Implicit Types (self : BpLambdaPerceptron.t Net).

Lemma round_due_enough self :
  round_due self = true → (bs self ≤ length (example_history_x self))%nat.
Proof.
  unfold round_due. intros Hdue. apply Nat.eqb_eq in Hdue.
  pose proof (Nat.div_mod_eq (length (example_history_x self) + 1) (bs self + 1)).
  destruct (((length (example_history_x self) + 1) / (bs self + 1))%nat); nia.
Qed.

Lemma lambda_term_ok X self :
  paired self → ∃ l, lambda_term X self = (Ok l, self).
Proof.
  intros Hp. unfold lambda_term, mbind, M_bind, mret, M_ret, gets, lift. simpl.
  destruct (list_index X (example_history_x self)) as [i|] eqn:Hi; [|eauto].
  apply list_index_lt in Hi. unfold np_getitem.
  destruct (lookup_lt_is_Some_2 (example_history_y self) i) as [yi ->];
    [unfold paired in Hp; lia|]. eauto.
Qed.

(** What one update does to the buffer and to the count of rounds. *)
Lemma BpLambda_update_spec X y self :
  paired self →
  let self' := (predict_and_update X y self).2 in
  ∃ d : bool,
    (predict_and_update X y self).1 = Ok (b2q d)
    ∧ rounds self' = (rounds self + if round_due self then 1 else 0)%nat
    ∧ bs self' = bs self ∧ lamb self' = lamb self
    ∧ (example_history_x self', example_history_y self') =
        if negb (Z.b2z d =? y)
        then (example_history_x self ++ [X], example_history_y self ++ [y])
        else (example_history_x self, example_history_y self).
Proof.
  intros Hp. cbv zeta.
  destruct (lambda_term_ok X (with_net zero_grad self)) as [l Hl]; [done|].
  destruct (predict_and_update X y self) as [r self'] eqn:Heq.
  unfold predict_and_update, predict, mbind, M_bind, mret, M_ret,
    modify, gets in Heq.
  rewrite Hl in Heq.
  replace (round_due (with_net zero_grad self)) with (round_due self)
    in Heq by done.
  exists (Qgt_bool (forward (net (with_net zero_grad self)) X + l) (1 # 2)).
  destruct (round_due self) eqn:Hdue.
  - apply round_due_enough in Hdue.
    unfold learning_round, mbind, M_bind, mret, M_ret, modify, gets, raise
      in Heq.
    simpl in Heq.
    replace (length (example_history_x self) <? bs self)%nat with false
      in Heq by (symmetry; apply Nat.ltb_ge; lia).
    simpl in *.
    destruct (negb _); injection Heq as <- <-; simpl; repeat split; lia.
  - simpl in *.
    destruct (negb _); injection Heq as <- <-; simpl; repeat split; lia.
Qed.

Lemma lambda_term_state X self : (lambda_term X self).2 = self.
Proof.
  unfold lambda_term, mbind, M_bind, mret, M_ret, gets, lift. simpl.
  destruct (list_index X (example_history_x self)) as [i|]; [|done].
  by destruct (np_getitem (example_history_y self) i).
Qed.

(** The prediction returned does not depend on the label. *)
Lemma BpLambda_prediction_ignores_label X y y' self :
  (predict_and_update X y self).1 = (predict_and_update X y' self).1.
Proof.
  unfold predict_and_update, predict, mbind, M_bind, mret, M_ret,
    modify, gets.
  pose proof (lambda_term_state X (with_net zero_grad self)) as Hst.
  destruct (lambda_term X (with_net zero_grad self)) as [[l|e] self1];
    [|done].
  simpl in Hst. subst self1.
  destruct (round_due _).
  - destruct (learning_round _) as [[[]|e] self2]; [|done].
    by do 2 destruct (negb _).
  - by do 2 destruct (negb _).
Qed.

Lemma BpLambda_update_paired X y self :
  paired self → paired (predict_and_update X y self).2.
Proof.
  intros Hp. destruct (BpLambda_update_spec X y self Hp)
    as (d & _ & _ & _ & _ & Hbuf).
  unfold paired in *. destruct (negb _); injection Hbuf as -> ->;
    rewrite ?length_app; simpl; lia.
Qed.

Lemma mispredicted_grows X y self :
  paired self → mispredicted X y self = true →
  length (example_history_x (predict_and_update X y self).2)
  = S (length (example_history_x self)).
Proof.
  intros Hp Hmis. unfold mispredicted in Hmis.
  destruct (BpLambda_update_spec X y self Hp)
    as (d & Hr & _ & _ & _ & Hbuf).
  rewrite Hr, b2q_neq_label in Hmis. rewrite Hmis in Hbuf.
  injection Hbuf as -> _. rewrite length_app. simpl. lia.
Qed.

Lemma updates_ok l : ∀ self,
  paired self → Forall (λ r, is_ok r = true) (updates l self).1.
Proof.
  induction l as [|[X y] l IH]; intros self Hp; simpl; [constructor|].
  pose proof (BpLambda_update_paired X y self Hp) as Hp'.
  destruct (BpLambda_update_spec X y self Hp) as (d & Hr & _).
  destruct (predict_and_update X y self) as [r self1]. simpl in *.
  specialize (IH self1 Hp').
  destruct (updates l self1) as [rs self2]. simpl in *.
  constructor; [by subst r|done].
Qed.

(** Over updates that are all mispredicted the buffer grows by one each
    time, and the rounds fired are the multiples of [bs + 1] passed. *)
Lemma updates_rounds l : ∀ self,
  paired self → all_mispredicted l self = true →
  let self' := (updates l self).2 in
  bs self' = bs self
  ∧ length (example_history_x self')
    = (length (example_history_x self) + length l)%nat
  ∧ (rounds self' + length (example_history_x self) / (bs self + 1)
     = rounds self + length (example_history_x self') / (bs self + 1))%nat.
Proof.
  induction l as [|[X y] l IH]; intros self Hp Hall; simpl.
  { repeat split; lia. }
  simpl in Hall. apply andb_true_iff in Hall as [Hmis Hall].
  pose proof (BpLambda_update_paired X y self Hp) as Hp'.
  pose proof (mispredicted_grows X y self Hp Hmis) as Hlen.
  destruct (BpLambda_update_spec X y self Hp)
    as (d & _ & Hrounds & Hbs & _ & _).
  destruct (predict_and_update X y self) as [r self1]. simpl in *.
  specialize (IH self1 Hp' Hall).
  destruct (updates l self1) as [rs self2]. simpl in *.
  destruct IH as (Hbs2 & Hlen2 & Hr2).
  rewrite Hbs in *. rewrite Hlen in *.
  repeat split; [done|lia|].
  pose proof (succ_div (length (example_history_x self)) (bs self + 1)
                ltac:(lia)) as Hdiv.
  rewrite Nat.add_1_r in Hdiv.
  unfold round_due in Hrounds. rewrite (Nat.add_1_r (length _)) in Hrounds.
  destruct ((S (length (example_history_x self)) `mod` (bs self + 1) =? 0)%nat);
    lia.
Qed.

Lemma all_mispredicted_take l : ∀ k self,
  all_mispredicted l self = true → all_mispredicted (take k l) self = true.
Proof.
  induction l as [|[X y] l IH]; intros [|k] self Hall; simpl; try done.
  simpl in Hall. apply andb_true_iff in Hall as [-> Hall]. simpl. by apply IH.
Qed.

Lemma init_rounds net0 lamb0 l :
  all_mispredicted l (init net0 lamb0) = true →
  rounds (updates l (init net0 lamb0)).2 = (length l / 17)%nat.
Proof.
  intros Hall.
  destruct (updates_rounds l (init net0 lamb0) eq_refl Hall)
    as (_ & Hlen & Hr).
  rewrite Hlen in Hr.
  change (bs (init net0 lamb0) + 1)%nat with 17%nat in Hr.
  change (length (example_history_x (init net0 lamb0))) with 0%nat in Hr.
  change (rounds (init net0 lamb0)) with 0%nat in Hr.
  rewrite Nat.Div0.div_0_l, !Nat.add_0_l, Nat.add_0_r in Hr. exact Hr.
Qed.

(** C6: an update fires a mini-batch round exactly when the buffer size
    plus one (this update counted) is a multiple of [bs + 1]; over 17
    updates from a fresh predictor that are all mispredicted, no round fires
    in the first 16 and exactly one has fired after the 17th. *)
Theorem minibatch_round_trigger :
  (∀ self X y, paired self →
     rounds (predict_and_update X y self).2 =
       (rounds self
        + if ((length (example_history_x self) + 1) `mod` (bs self + 1) =? 0)%nat
          then 1 else 0)%nat)
  ∧ (∀ net0 lamb0 l,
       length l = 17%nat → all_mispredicted l (init net0 lamb0) = true →
       (∀ k, (k < 17)%nat → rounds (updates (take k l) (init net0 lamb0)).2 = 0%nat)
       ∧ rounds (updates l (init net0 lamb0)).2 = 1%nat).
Proof.
  split.
  - intros self X y Hp.
    by destruct (BpLambda_update_spec X y self Hp) as (d & _ & -> & _).
  - intros net0 lamb0 l Hlen Hall. split.
    + intros k Hk.
      rewrite init_rounds by (by apply all_mispredicted_take).
      rewrite length_take, Hlen.
      apply Nat.div_small. lia.
    + rewrite init_rounds, Hlen by done. reflexivity.
Qed.

(** C7: when the count test fires, the buffer holds at least [bs]
    examples, so the draw of [learning_round] cannot fail; no update of any
    sequence of updates from a fresh predictor raises. *)
Theorem insufficient_data_unreachable :
  (∀ self, round_due self = true →
     (bs self ≤ length (example_history_x self))%nat
     ∧ (learning_round self).1 = Ok tt)
  ∧ (∀ net0 lamb0 l,
       Forall (λ r, is_ok r = true) (updates l (init net0 lamb0)).1).
Proof.
  split.
  - intros self Hdue. pose proof (round_due_enough self Hdue) as Hbs.
    split; [done|].
    unfold learning_round, mbind, M_bind, mret, M_ret, modify, gets, raise.
    simpl.
    by replace (length (example_history_x self) <? bs self)%nat with false
      by (symmetry; apply Nat.ltb_ge; lia).
  - intros net0 lamb0 l. by apply updates_ok.
Qed.

End BpLambdaPerceptronProofs.

(** ** BranchPredictor *)

Section BranchPredictorProofs.
Context {P : Type} {HP : Perceptron P} {R : Rounding}.
Import BranchPredictor.
Implicit Types (self : BranchPredictor.t P).

Lemma update_history_spec cond self :
  update_history cond self =
    match global_history self with
    | [] => (Raise IndexError, set_global_history [] self)
    | _ :: _ =>
        (Ok tt, set_global_history
                  (take (length (global_history self))
                     (b2q cond :: global_history self)) self)
    end.
Proof.
  unfold update_history, mbind, M_bind, modify, gets, lift. simpl.
  destruct (global_history self) as [|x gh] eqn:Hgh.
  - reflexivity.
  - rewrite np_roll_setitem by done.
    unfold b2q. destruct cond; reflexivity.
Qed.

(** The end of every call: push the outcome, return the condition. *)
Lemma push_spec cond self :
  (update_history cond;; mret cond) self =
    match global_history self with
    | [] => (Raise IndexError, set_global_history [] self)
    | _ :: _ =>
        (Ok cond, set_global_history
                    (take (length (global_history self))
                       (b2q cond :: global_history self)) self)
    end.
Proof.
  unfold mbind, M_bind. rewrite update_history_spec.
  by destruct (global_history self).
Qed.

Lemma push_fields cond self :
  let self' := ((update_history cond;; mret cond) self).2 in
  total self' = total self ∧ correct self' = correct self
  ∧ moving_accuracy self' = moving_accuracy self
  ∧ taken_history self' = taken_history self
  ∧ prediction_history self' = prediction_history self
  ∧ perceptrons self' = perceptrons self
  ∧ default_factory self' = default_factory self.
Proof.
  rewrite push_spec. by destruct (global_history self).
Qed.

(** The body of [if tag:] leaves what [record] describes. *)
Lemma observe_tagged_ok cond s self p perc :
  predictor_step self cond s = (Ok p, perc) →
  observe_tagged cond s self =
    (Ok tt, set_perceptrons (<[s := perc]> (perceptrons self))
              (record s p cond self)).
Proof.
  unfold predictor_step. intros Hstep.
  unfold observe_tagged, on_perceptron, mbind, M_bind, mret, M_ret,
    modify, gets. simpl.
  unfold perceptron_of in *. simpl. rewrite Hstep. simpl.
  unfold record, set_perceptrons, dd_get. simpl.
  destruct (Qeq_bool (b2q cond) p); simpl.
  - rewrite lookup_insert_eq. simpl. rewrite insert_insert_eq. reflexivity.
  - reflexivity.
Qed.

Lemma observe_tagged_raise cond s self e perc :
  predictor_step self cond s = (Raise e, perc) →
  observe_tagged cond s self =
    (Raise e,
     set_perceptrons (<[s := perc]> (perceptrons self))
       (set_total (<[s := dd_get 0 (total self) s + 1]> (total self)) self)).
Proof.
  unfold predictor_step. intros Hstep.
  unfold observe_tagged, on_perceptron, mbind, M_bind, mret, M_ret,
    modify, gets. simpl.
  unfold perceptron_of in *. simpl. rewrite Hstep. reflexivity.
Qed.

Lemma truthy_Some tag : truthy tag = true ↔ ∃ s, tag = Some s ∧ s ≠ "".
Proof.
  destruct tag as [s|]; simpl.
  - rewrite negb_true_iff. split.
    + intros Hs. exists s. split; [done|]. intros ->. done.
    + intros (s' & [= <-] & Hne). by apply String.eqb_neq.
  - split; [done|]. by intros (s & ? & _).
Qed.

Lemma truthy_false tag : truthy tag = false ↔ tag = None ∨ tag = Some "".
Proof.
  destruct tag as [s|]; simpl.
  - rewrite negb_false_iff, String.eqb_eq. split; [intros ->; auto|].
    by intros [|[= ->]].
  - split; auto.
Qed.

Lemma call_untagged cond tag self :
  truthy tag = false →
  call cond tag self = (update_history cond;; mret cond) self.
Proof. intros Ht. unfold call. rewrite Ht. reflexivity. Qed.

Lemma call_tagged_ok cond s self p perc :
  s ≠ "" → predictor_step self cond s = (Ok p, perc) →
  call cond (Some s) self =
    (update_history cond;; mret cond)
      (set_perceptrons (<[s := perc]> (perceptrons self))
         (record s p cond self)).
Proof.
  intros Hs Hstep. unfold call.
  replace (truthy (Some s)) with true
    by (symmetry; apply truthy_Some; eauto).
  simpl default. unfold mbind at 1, M_bind at 1.
  by rewrite (observe_tagged_ok _ _ _ _ _ Hstep).
Qed.

Lemma call_tagged_raise cond s self e perc :
  s ≠ "" → predictor_step self cond s = (Raise e, perc) →
  call cond (Some s) self =
    (Raise e,
     set_perceptrons (<[s := perc]> (perceptrons self))
       (set_total (<[s := dd_get 0 (total self) s + 1]> (total self)) self)).
Proof.
  intros Hs Hstep. unfold call.
  replace (truthy (Some s)) with true
    by (symmetry; apply truthy_Some; eauto).
  simpl default. unfold mbind at 1, M_bind at 1.
  by rewrite (observe_tagged_raise _ _ _ _ _ Hstep).
Qed.

Lemma call_cases cond tag self :
  call_outcome cond tag self (call cond tag self).
Proof.
  destruct (truthy tag) eqn:Ht.
  - apply truthy_Some in Ht as (s & -> & Hs).
    destruct (predictor_step self cond s) as [[p|e] perc] eqn:Hstep.
    + rewrite (call_tagged_ok _ _ _ _ _ Hs Hstep). by eapply outcome_ok.
    + rewrite (call_tagged_raise _ _ _ _ _ Hs Hstep). by eapply outcome_raise.
  - rewrite call_untagged by done. by apply outcome_untagged.
Qed.

(** Case analysis on the three outcomes of a call. *)
Ltac call_outcomes cond tag self :=
  destruct (call_cases cond tag self) as [?Ht|?s ?e ?perc -> ?Hs ?Hstep
                                         |?s ?p ?perc -> ?Hs ?Hstep].

(** The register after a call: the condition in front when the call
    returned, untouched when it raised. *)
Lemma call_history cond tag self :
  global_history (call cond tag self).2 =
    match (call cond tag self).1 with
    | Ok _ => take (length (global_history self))
                (b2q cond :: global_history self)
    | Raise _ => global_history self
    end
  ∧ ((call cond tag self).1 = Ok cond ∨ ∃ e, (call cond tag self).1 = Raise e).
Proof.
  call_outcomes cond tag self.
  - rewrite push_spec.
    destruct (global_history self) eqn:E; simpl; rewrite ?E; eauto.
  - simpl. eauto.
  - rewrite push_spec. simpl.
    destruct (global_history self) eqn:E; simpl; rewrite ?E; eauto.
Qed.

Lemma run_history calls : ∀ self,
  global_history (run calls self).2 =
    take (length (global_history self))
      (rev (map b2q (returned (run calls self).1)) ++ global_history self).
Proof.
  induction calls as [|[cond tag] calls IH]; intros self.
  - simpl. by rewrite take_ge.
  - simpl.
    destruct (call_history cond tag self) as [Hgh Hr].
    destruct (call cond tag self) as [r self1] eqn:Hcall. simpl in Hgh, Hr.
    specialize (IH self1).
    destruct (run calls self1) as [rs self2] eqn:Hrun. simpl in IH |- *.
    rewrite IH, Hgh.
    destruct Hr as [-> | [e ->]]; simpl.
    + destruct (global_history self) as [|x gh] eqn:Hself.
      { simpl. by rewrite !take_0. }
      rewrite length_take.
      replace (length (x :: gh) `min` length (b2q cond :: x :: gh))%nat
        with (length (x :: gh)) by (simpl; lia).
      rewrite take_app_take. f_equal.
      simpl. by rewrite <- app_assoc.
    + done.
Qed.

(** The values that the calls of a run return are the conditions they
    were passed. *)
Lemma run_pushed calls : ∀ self,
  returned (run calls self).1 = pushed calls (run calls self).1.
Proof.
  induction calls as [|[cond tag] calls IH]; intros self; [done|].
  simpl.
  destruct (call_history cond tag self) as [_ Hr].
  destruct (call cond tag self) as [r self1]. simpl in Hr.
  specialize (IH self1).
  destruct (run calls self1) as [rs self2]. simpl in IH |- *.
  destruct Hr as [-> | [e ->]]; simpl; by rewrite IH.
Qed.

Lemma pushed_all calls :
  pushed calls (map (λ c, Ok c.1) calls) = calls.*1.
Proof.
  induction calls as [|[cond tag] calls IH]; [done|]. simpl. by rewrite IH.
Qed.

(** An invariant of every call is an invariant of every run. *)
Lemma run_preserves (I : BranchPredictor.t P → Prop) :
  (∀ cond tag self, I self → I (call cond tag self).2) →
  ∀ calls self, I self → I (run calls self).2.
Proof.
  intros Hstep calls. induction calls as [|[cond tag] calls IH]; intros self HI.
  - done.
  - simpl. specialize (Hstep cond tag self HI).
    destruct (call cond tag self) as [r self1]. simpl in Hstep.
    specialize (IH self1 Hstep).
    by destruct (run calls self1) as [rs self2].
Qed.

Lemma call_total cond tag self s :
  dd_get 0 (total (call cond tag self).2) s =
    dd_get 0 (total self) s
    + (if truthy tag && bool_decide (tag = Some s) then 1 else 0).
Proof.
  call_outcomes cond tag self.
  - destruct (push_fields cond self) as (-> & _). rewrite Ht. simpl. lia.
  - replace (truthy (Some s0)) with true
      by (symmetry; apply truthy_Some; eauto).
    cbn [snd total set_perceptrons set_total andb]. rewrite dd_get_insert.
    case_decide; subst.
    + rewrite bool_decide_eq_true_2 by done. done.
    + rewrite bool_decide_eq_false_2 by congruence. lia.
  - replace (truthy (Some s0)) with true
      by (symmetry; apply truthy_Some; eauto).
    match goal with |- context [(?m ?s1).2] =>
      destruct (push_fields cond s1) as (-> & _) end.
    cbn [snd total set_perceptrons record andb]. rewrite dd_get_insert.
    case_decide; subst.
    + rewrite bool_decide_eq_true_2 by done. done.
    + rewrite bool_decide_eq_false_2 by congruence. lia.
Qed.

Lemma call_counters_ok cond tag self :
  counters_ok self → counters_ok (call cond tag self).2.
Proof.
  intros Hinv s'. specialize (Hinv s').
  call_outcomes cond tag self.
  - by destruct (push_fields cond self) as (-> & -> & _).
  - simpl. rewrite dd_get_insert. case_decide; subst; lia.
  - match goal with |- context [(?m ?s1).2] =>
      destruct (push_fields cond s1) as (-> & -> & _) end.
    simpl. destruct (Qeq_bool (b2q cond) p);
      rewrite ?dd_get_insert; case_decide; subst; lia.
Qed.

Lemma call_observed cond tag self :
  observed self → observed (call cond tag self).2.
Proof.
  intros Hinv s'. destruct (Hinv s') as [Hpos Hobs].
  call_outcomes cond tag self.
  - by destruct (push_fields cond self) as (-> & _ & _ & _ & _ & -> & _).
  - simpl. rewrite dd_get_insert, lookup_insert.
    case_decide; subst; [|done]. split; [lia|]. intros _. lia.
  - match goal with |- context [(?m ?s1).2] =>
      destruct (push_fields cond s1) as (-> & _ & _ & _ & _ & -> & _) end.
    simpl. rewrite dd_get_insert, lookup_insert.
    case_decide; subst; [|done]. split; [lia|]. intros _. lia.
Qed.

Lemma init_observed n (preceptron : string → P) :
  observed (init n preceptron).
Proof.
  intros s. simpl. rewrite dd_get_empty, lookup_empty. split; [done|].
  by intros [? ?].
Qed.

(** A call returns its condition when the register is not empty and the
    predictor, if one is asked, does not raise. *)
Lemma call_returns cond tag self :
  global_history self ≠ [] →
  (∀ s, tag = Some s → s ≠ "" →
        is_ok (predictor_step self cond s).1 = true) →
  (call cond tag self).1 = Ok cond.
Proof.
  intros Hgh Hpred.
  call_outcomes cond tag self.
  - rewrite push_spec. by destruct (global_history self).
  - specialize (Hpred s eq_refl Hs). by rewrite Hstep in Hpred.
  - rewrite push_spec. simpl. by destruct (global_history self).
Qed.

Lemma call_shaped n (I : P → Prop) cond tag self :
  (∀ X y p, I p → length X = n → I (predict_and_update X y p).2) →
  shaped n I self → shaped n I (call cond tag self).2.
Proof.
  intros HI [Hlen Hall]. split.
  - destruct (call_history cond tag self) as [-> _].
    destruct ((call cond tag self).1); [|done].
    rewrite length_take. simpl. lia.
  - intros s'. unfold perceptron_of.
    call_outcomes cond tag self.
    + destruct (push_fields cond self) as (_ & _ & _ & _ & _ & -> & ->).
      apply Hall.
    + simpl. rewrite lookup_insert. case_decide; [subst s'|apply Hall].
      simpl. specialize (HI (global_history self) (Z.b2z cond) _ (Hall s) Hlen).
      unfold predictor_step in Hstep. by rewrite Hstep in HI.
    + match goal with |- context [(?m ?s1).2] =>
        destruct (push_fields cond s1) as (_ & _ & _ & _ & _ & -> & ->) end.
      simpl. rewrite lookup_insert. case_decide; [subst s'|apply Hall].
      simpl. specialize (HI (global_history self) (Z.b2z cond) _ (Hall s) Hlen).
      unfold predictor_step in Hstep. by rewrite Hstep in HI.
Qed.

(** With a register of at least one cell and predictors that keep an
    invariant under which they do not raise, every call of a run returns
    its condition. *)
Lemma run_returns n (I : P → Prop) :
  (0 < n)%nat →
  (∀ X y p, I p → length X = n →
     is_ok (predict_and_update X y p).1 = true
     ∧ I (predict_and_update X y p).2) →
  ∀ calls self, shaped n I self →
    (run calls self).1 = map (λ c, Ok c.1) calls.
Proof.
  intros Hn HI calls.
  induction calls as [|[cond tag] calls IH]; intros self Hshape; [done|].
  simpl.
  assert (Hret : (call cond tag self).1 = Ok cond).
  { destruct Hshape as [Hlen Hall]. apply call_returns.
    - intros Hnil. rewrite Hnil in Hlen. simpl in Hlen. lia.
    - intros s _ _. by apply HI. }
  assert (Hshape' : shaped n I (call cond tag self).2).
  { apply call_shaped; [|done]. intros X y p Hp HX. by apply HI. }
  destruct (call cond tag self) as [r self1]. simpl in *. subst r.
  specialize (IH self1 Hshape').
  destruct (run calls self1) as [rs self2]. simpl in *. by rewrite IH.
Qed.

Lemma init_shaped n (I : P → Prop) (preceptron : string → P) :
  (∀ s, I (preceptron s)) → shaped n I (init n preceptron).
Proof.
  intros HI. split.
  - simpl. by rewrite length_replicate.
  - intros s. unfold perceptron_of. simpl. rewrite lookup_empty. apply HI.
Qed.

(** C2: the register keeps the length [n] it was built with, whatever the
    calls, and once at least [n] outcomes have been pushed it holds the last
    [n] of them, the newest first.  The outcomes pushed are the conditions
    passed to the calls that returned (a call that raises pushes nothing),
    and they are the values those calls returned; when the register has a
    cell and the predictors do not raise, they are the conditions of all
    the calls. *)
Theorem history_register_invariant (n : nat) (preceptron : string → P)
    (calls : list (bool * option string)) :
  let out := run calls (init n preceptron) in
  let outcomes := pushed calls out.1 in
  length (global_history out.2) = n
  ∧ ((n ≤ length outcomes)%nat →
     global_history out.2 = map b2q (take n (rev outcomes)))
  ∧ returned out.1 = outcomes
  ∧ (∀ I : P → Prop,
       (0 < n)%nat →
       (∀ X y p, I p → length X = n →
          is_ok (predict_and_update X y p).1 = true
          ∧ I (predict_and_update X y p).2) →
       (∀ s, I (preceptron s)) →
       outcomes = calls.*1).
Proof.
  cbv zeta. rewrite run_history, <- run_pushed. simpl global_history.
  rewrite length_replicate. split; [|split; [|split]].
  - rewrite length_take, length_app, length_replicate. lia.
  - intros Hk. rewrite take_app_le
      by (rewrite length_rev, length_map; lia).
    rewrite <- map_rev. apply firstn_map.
  - done.
  - intros I Hn HI Hinit. rewrite run_pushed.
    rewrite (run_returns n I Hn HI calls _ (init_shaped n I _ Hinit)).
    apply pushed_all.
Qed.

(** C4: in a tagged call the predictor is updated on the register as it
    is when the call starts; the outcome enters the register only
    afterwards, in front of those very contents. *)
Theorem prediction_precedes_push self (condition : bool) (s : string) :
  s ≠ "" →
  let before := global_history self in
  let out := call condition (Some s) self in
  perceptrons out.2 !! s =
    Some (predict_and_update before (Z.b2z condition)
            (perceptron_of self s)).2
  ∧ (is_ok out.1 = true →
     global_history out.2 = take (length before) (b2q condition :: before)).
Proof.
  intros Hs. cbv zeta. split.
  - destruct (predictor_step self condition s) as [[p|e] perc] eqn:Hstep.
    + rewrite (call_tagged_ok _ _ _ _ _ Hs Hstep).
      match goal with |- context [(?m ?s1).2] =>
        destruct (push_fields condition s1)
          as (_ & _ & _ & _ & _ & -> & _) end.
      simpl. rewrite lookup_insert_eq.
      unfold predictor_step in Hstep. by rewrite Hstep.
    + rewrite (call_tagged_raise _ _ _ _ _ Hs Hstep).
      simpl. rewrite lookup_insert_eq.
      unfold predictor_step in Hstep. by rewrite Hstep.
  - destruct (call_history condition (Some s) self) as [-> _].
    by destruct ((call condition (Some s) self).1).
Qed.

(** C5: a call adds exactly 1 to the total of its tag when it is tagged
    and leaves every other total, and every total of an untagged call, as
    it was; after every run the hits of a tag are at most its total. *)
Theorem counters_monotone :
  (∀ self (condition : bool) (tag : option string) (s : string),
     dd_get 0 (total (call condition tag self).2) s =
       dd_get 0 (total self) s
       + (if truthy tag && bool_decide (tag = Some s) then 1 else 0))
  ∧ (∀ n (preceptron : string → P) calls s,
       dd_get 0 (correct (run calls (init n preceptron)).2) s
       ≤ dd_get 0 (total (run calls (init n preceptron)).2) s).
Proof.
  split.
  - intros. apply call_total.
  - intros n preceptron calls.
    apply (run_preserves counters_ok).
    + intros. by apply call_counters_ok.
    + intros s. simpl. by rewrite !dd_get_empty.
Qed.

Lemma accuracies_raise keys : ∀ self acc key,
  key ∈ keys → dd_get 0 (total self) key = 0 →
  accuracies keys self acc = Raise ZeroDivisionError.
Proof.
  induction keys as [|k keys IH]; intros self acc key Hin Hz.
  - by apply elem_of_nil in Hin.
  - simpl. unfold accuracy, py_truediv.
    destruct (dd_get 0 (total self) k =? 0) eqn:Hk; [done|].
    apply elem_of_cons in Hin as [->|Hin].
    + rewrite Hz in Hk. done.
    + by eapply IH.
Qed.

Lemma accuracies_ok keys : ∀ self acc,
  (∀ key, key ∈ keys → dd_get 0 (total self) key ≠ 0) →
  ∃ acc', accuracies keys self acc = Ok acc'
          ∧ ∀ key, acc' !! key =
              if decide (key ∈ keys) then Some (fl (ratio self key))
              else acc !! key.
Proof.
  induction keys as [|k keys IH]; intros self acc Hnz.
  - exists acc. split; [done|]. intros key.
    case_decide as Hin; [by apply elem_of_nil in Hin|done].
  - simpl. unfold accuracy.
    rewrite py_truediv_nonzero by (apply Hnz; left).
    destruct (IH self (<[k := fl (ratio self k)]> acc))
      as (acc' & Hacc & Hlook).
    { intros key Hin. apply Hnz. by right. }
    exists acc'. split; [done|]. intros key. rewrite Hlook.
    destruct (decide (key ∈ keys)) as [Hin|Hnin].
    + rewrite decide_True by (by right). done.
    + destruct (decide (key = k)) as [->|Hne].
      * rewrite decide_True by left. by rewrite lookup_insert_eq.
      * rewrite decide_False by (intros [?|?]%elem_of_cons; done).
        by rewrite lookup_insert_ne.
Qed.

Lemma elem_of_keys self key :
  key ∈ (map_to_list (perceptrons self)).*1
  ↔ is_Some (perceptrons self !! key).
Proof.
  rewrite list_elem_of_fmap. split.
  - intros ([k p] & -> & Hin). apply elem_of_map_to_list in Hin. eauto.
  - intros [p Hp]. exists (key, p). split; [done|].
    by apply elem_of_map_to_list.
Qed.

(** [get_accuracies] raises when a tag it visits has a total of 0, and
    otherwise returns, for the tags that have a predictor, the rounded
    ratios. *)
Lemma get_accuracies_spec self :
  (∀ key, dd_get 0 (total self) key = 0 →
          is_Some (perceptrons self !! key) →
          get_accuracies self = Raise ZeroDivisionError)
  ∧ ((∀ key, is_Some (perceptrons self !! key) →
             dd_get 0 (total self) key ≠ 0) →
     ∃ acc, get_accuracies self = Ok (acc, moving_accuracy self)
            ∧ ∀ key, acc !! key =
                if decide (is_Some (perceptrons self !! key))
                then Some (fl (ratio self key)) else None).
Proof.
  split.
  - intros key Hz Hkey. unfold get_accuracies.
    rewrite (accuracies_raise _ self ∅ key); [done| |done].
    by apply elem_of_keys.
  - intros Hnz. unfold get_accuracies.
    destruct (accuracies_ok (map_to_list (perceptrons self)).*1 self ∅)
      as (acc & -> & Hlook).
    { intros key Hin. apply Hnz. by apply elem_of_keys. }
    exists acc. split; [done|]. intros key. rewrite Hlook.
    destruct (decide (is_Some (perceptrons self !! key))) as [Hk|Hk].
    + rewrite decide_True; [done|]. by apply elem_of_keys.
    + rewrite decide_False; [by rewrite lookup_empty|].
      by rewrite elem_of_keys.
Qed.

(** C8 (amended): the accuracy of a tag is a ZeroDivisionError when its
    total is 0, and then [get_accuracies] raises it if the tag is among
    those it visits; otherwise the accuracy is the ratio of the hits to the
    total rounded to the nearest double, and with no tag of total 0
    [get_accuracies] returns that value for each tag that has a
    predictor. *)
Theorem accuracy_division self :
  (∀ key, dd_get 0 (total self) key = 0 →
     accuracy self key = Raise ZeroDivisionError
     ∧ (is_Some (perceptrons self !! key) →
        get_accuracies self = Raise ZeroDivisionError))
  ∧ (∀ key, dd_get 0 (total self) key ≠ 0 →
       accuracy self key = Ok (fl (ratio self key)))
  ∧ ((∀ key, is_Some (perceptrons self !! key) →
             dd_get 0 (total self) key ≠ 0) →
     ∃ acc, get_accuracies self = Ok (acc, moving_accuracy self)
            ∧ ∀ key, acc !! key =
                if decide (is_Some (perceptrons self !! key))
                then Some (fl (ratio self key)) else None).
Proof.
  destruct (get_accuracies_spec self) as [Hraise Hok].
  split; [|split].
  - intros key Hz. split.
    + unfold accuracy, py_truediv. by rewrite Hz.
    + by apply Hraise.
  - intros key Hnz. unfold accuracy. by rewrite py_truediv_nonzero.
  - done.
Qed.

(** After a run no tag that has a predictor has a total of 0, so
    [get_accuracies] returns. *)
Lemma get_accuracies_after_run n (preceptron : string → P) calls :
  is_ok (get_accuracies (run calls (init n preceptron)).2) = true.
Proof.
  assert (Hobs : observed (run calls (init n preceptron)).2).
  { apply (run_preserves observed).
    - intros. by apply call_observed.
    - apply init_observed. }
  destruct (get_accuracies_spec (run calls (init n preceptron)).2)
    as [_ Hok].
  destruct Hok as (acc & -> & _); [|done].
  intros key Hkey. destruct (Hobs key) as [_ Hone].
  specialize (Hone Hkey). lia.
Qed.

(** C9 (amended): a call whose tag is a non-empty string has its tag's
    predictor predict and update on the register and the condition and, when
    the predictor returns, records the statistics of the tag before it
    pushes the outcome; a call with no tag or with the empty string as tag
    only pushes the outcome. *)
Theorem tagged_call_effects self (condition : bool) (tag : option string) :
  (tag = None ∨ tag = Some "" →
   call condition tag self
   = (update_history condition;; mret condition) self)
  ∧ (∀ s, tag = Some s → s ≠ "" →
       (∀ p perc,
          predict_and_update (global_history self) (Z.b2z condition)
            (perceptron_of self s) = (Ok p, perc) →
          call condition tag self
          = (update_history condition;; mret condition)
              (set_perceptrons (<[s := perc]> (perceptrons self))
                 (record s p condition self)))
       ∧ (∀ e perc,
            predict_and_update (global_history self) (Z.b2z condition)
              (perceptron_of self s) = (Raise e, perc) →
            call condition tag self
            = (Raise e,
               set_perceptrons (<[s := perc]> (perceptrons self))
                 (set_total
                    (<[s := dd_get 0 (total self) s + 1]> (total self))
                    self)))).
Proof.
  split.
  - intros Htag. apply call_untagged. by apply truthy_false.
  - intros s -> Hs. split.
    + intros p perc Hstep. by apply call_tagged_ok.
    + intros e perc Hstep. by apply call_tagged_raise.
Qed.

Context {RL : RoundingLaws}.

Lemma fl_nonneg x : (0 <= x)%Q → (0 <= fl x)%Q.
Proof. intros Hx. rewrite <- fl_0. by apply fl_mono. Qed.

Lemma fl_le_1 x : (x <= 1)%Q → (fl x <= 1)%Q.
Proof. intros Hx. rewrite <- fl_1. by apply fl_mono. Qed.

(** One step of the recurrence keeps the interval [0, 1], with and
    without the hit. *)
Lemma decay_bounds m :
  (0 <= m)%Q → (m <= 1)%Q →
  (0 <= fl (m * fl (9 # 10)) ∧ fl (m * fl (9 # 10)) <= 1
   ∧ 0 <= fl (fl (m * fl (9 # 10)) + fl (1 # 10))
   ∧ fl (fl (m * fl (9 # 10)) + fl (1 # 10)) <= 1)%Q.
Proof.
  intros H0m Hm1.
  assert (Hc9 : (0 <= fl (9 # 10))%Q) by (apply fl_nonneg; lra).
  assert (Hc9' : (fl (9 # 10) <= 1)%Q) by (apply fl_le_1; lra).
  assert (Hc1 : (0 <= fl (1 # 10))%Q) by (apply fl_nonneg; lra).
  assert (Hd0 : (0 <= fl (m * fl (9 # 10)))%Q) by (apply fl_nonneg; nra).
  assert (Hmono : (fl (m * fl (9 # 10)) <= fl (1 * fl (9 # 10)))%Q)
    by (apply fl_mono; nra).
  repeat split.
  - done.
  - apply fl_le_1. nra.
  - apply fl_nonneg. lra.
  - eapply Qle_trans; [|apply fl_full]. apply fl_mono. lra.
Qed.

Lemma call_moving_accuracy_ok cond tag self :
  moving_accuracy_ok self → moving_accuracy_ok (call cond tag self).2.
Proof.
  intros Hinv s'.
  call_outcomes cond tag self.
  - destruct (push_fields cond self) as (_ & _ & -> & _). apply Hinv.
  - simpl. apply Hinv.
  - match goal with |- context [(?m ?s1).2] =>
      destruct (push_fields cond s1) as (_ & _ & -> & _) end.
    simpl. rewrite dd_get_insert. case_decide; [subst s'|apply Hinv].
    destruct (Hinv s) as [H0m Hm1].
    destruct (decay_bounds _ H0m Hm1) as (? & ? & ? & ?).
    by destruct (Qeq_bool (b2q cond) p).
Qed.

(** C10: after every run the moving accuracy of every tag lies between 0
    and 1, also when each operation of the recurrence is rounded. *)
Theorem moving_accuracy_bounded (n : nat) (preceptron : string → P)
    (calls : list (bool * option string)) (s : string) :
  (0 <= dd_get 0%Q (moving_accuracy (run calls (init n preceptron)).2) s
   ∧ dd_get 0%Q (moving_accuracy (run calls (init n preceptron)).2) s <= 1)%Q.
Proof.
  revert s. apply (run_preserves moving_accuracy_ok).
  - intros. by apply call_moving_accuracy_ok.
  - intros s. simpl. rewrite dd_get_empty. split; lra.
Qed.

End BranchPredictorProofs.

(** ** The three predictor classes under the orchestrator *)

Lemma BpPerceptron_update_total {Net} `{TorchNet Net} X y
    (p : BpPerceptron.t Net) :
  is_ok (predict_and_update X y p).1 = true.
Proof. reflexivity. Qed.

(** The prediction returned does not depend on the label. *)
Lemma BpPerceptron_prediction_ignores_label {Net} `{TorchNet Net} X y y'
    (p : BpPerceptron.t Net) :
  (predict_and_update X y p).1 = (predict_and_update X y' p).1.
Proof. reflexivity. Qed.

(** C1: a call returns its condition, with or without a tag, provided
    the register has at least one cell and the predictor it asks does not
    raise; this is so for every call of every run on a register of [n > 0]
    cells with each of the three predictor classes. *)
Theorem call_returns_condition :
  (∀ (P : Type) (HP : Perceptron P) (R : Rounding)
     (self : BranchPredictor.t P) (condition : bool) (tag : option string),
     BranchPredictor.global_history self ≠ [] →
     (∀ s, tag = Some s → s ≠ "" →
        is_ok (BranchPredictor.predictor_step self condition s).1 = true) →
     (BranchPredictor.call condition tag self).1 = Ok condition)
  ∧ (∀ (R : Rounding) n eta calls, (0 < n)%nat →
       (BranchPredictor.run calls
          (BranchPredictor.init n (λ _, TruePerceptron.init n eta))).1
       = map (λ c, Ok c.1) calls)
  ∧ (∀ Net (T : TorchNet Net) (R : Rounding) n (nets : string → Net) calls,
       (0 < n)%nat →
       (BranchPredictor.run calls
          (BranchPredictor.init n (λ s, BpPerceptron.mk (nets s)))).1
       = map (λ c, Ok c.1) calls)
  ∧ (∀ Net (T : TorchNet Net) (R : Rounding) n (nets : string → Net) lamb
       calls,
       (0 < n)%nat →
       (BranchPredictor.run calls
          (BranchPredictor.init n
             (λ s, BpLambdaPerceptron.init (nets s) lamb))).1
       = map (λ c, Ok c.1) calls).
Proof.
  split; [|split; [|split]].
  - intros. by apply call_returns.
  - intros R n eta calls Hn.
    apply (run_returns n (TruePerceptron.well_formed n)); [done| |].
    + intros X y p Hp HX. by apply TruePerceptron_update_total.
    + apply init_shaped. intros _. apply init_well_formed.
  - intros Net T R n nets calls Hn.
    apply (run_returns n (λ _, True)); [done| |].
    + intros X y p _ _. split; [|done]. apply BpPerceptron_update_total.
    + by apply init_shaped.
  - intros Net T R n nets lamb calls Hn.
    apply (run_returns n BpLambdaPerceptron.paired); [done| |].
    + intros X y p Hp _. split.
      * destruct (BpLambda_update_spec X y p Hp) as (d & Hr & _).
        simpl. unfold BpLambdaPerceptron_Perceptron. simpl.
        by rewrite Hr.
      * by apply BpLambda_update_paired.
    + by apply init_shaped.
Qed.

(** With [TruePerceptron] on a register of [n > 0] cells, once [n] calls
    have been made the register holds the conditions of the last [n] calls,
    the newest first. *)
Lemma history_of_conditions `{Rounding} n eta calls :
  (0 < n ≤ length calls)%nat →
  BranchPredictor.global_history
    (BranchPredictor.run calls
       (BranchPredictor.init n (λ _, TruePerceptron.init n eta))).2
  = map b2q (take n (rev (map fst calls))).
Proof.
  intros [Hn Hk].
  pose proof (run_returns n (TruePerceptron.well_formed n) Hn
                (λ X y p Hp HX, TruePerceptron_update_total n p X y Hp HX)
                calls _
                (init_shaped n _ _ (λ _, init_well_formed n eta))) as Hrun.
  assert (Hret : returned
            (BranchPredictor.run calls
               (BranchPredictor.init n (λ _, TruePerceptron.init n eta))).1
          = map fst calls).
  { rewrite Hrun. clear. induction calls as [|c calls IH]; [done|].
    simpl. by rewrite IH. }
  rewrite run_history. simpl BranchPredictor.global_history.
  rewrite length_replicate, Hret.
  rewrite take_app_le by (rewrite length_rev, !length_map; lia).
  rewrite <- map_rev. apply firstn_map.
Qed.

(** With [TruePerceptron] the first call on a tag logs a prediction of 1
    and is never counted as a hit, whatever the condition. *)
Lemma first_tagged_call_misses `{Rounding} n eta (condition : bool) s :
  (0 < n)%nat → s ≠ "" →
  let bp := BranchPredictor.init n (λ _, TruePerceptron.init n eta) in
  let out := BranchPredictor.call condition (Some s) bp in
  out.1 = Ok condition
  ∧ dd_get [] (BranchPredictor.prediction_history out.2) s = [1]
  ∧ dd_get 0 (BranchPredictor.correct out.2) s = 0.
Proof.
  intros Hn Hs bp out.
  pose proof (fresh_update_half n eta (replicate n 0%Q) (Z.b2z condition)
                (length_replicate _ _)) as Hhalf.
  destruct (TruePerceptron.predict_and_update (replicate n 0%Q)
              (Z.b2z condition) (TruePerceptron.init n eta))
    as [r perc] eqn:Hstep.
  simpl in Hhalf. subst r. subst out.
  rewrite (call_tagged_ok condition s bp (1 # 2)%Q perc Hs)
    by (unfold BranchPredictor.predictor_step; subst bp; simpl;
        unfold BranchPredictor.perceptron_of; simpl;
        by rewrite lookup_empty).
  rewrite push_spec. subst bp. simpl.
  destruct n as [|n]; [lia|]. simpl.
  rewrite dd_get_insert, decide_True by done.
  rewrite !dd_get_empty.
  by destruct condition.
Qed.

(** ** The claims at concrete inputs *)

(** Exact arithmetic satisfies the laws of rounding. *)
Lemma exact_laws : @RoundingLaws exact.
Proof.
  split; unfold fl, exact.
  - done.
  - reflexivity.
  - reflexivity.
  - lra.
Qed.

(** A predictor that always answers 0 is right on every branch not taken;
    four observations, the third a miss, leave the moving accuracy at the
    double that Python prints as 0.2539. *)
Example moving_accuracy_binary64 :
  dd_get 0%Q
    (BranchPredictor.moving_accuracy
       (BranchPredictor.run (HP := Recorder) (R := binary64)
          [(false, Some "a"); (false, Some "a"); (true, Some "a");
           (false, Some "a")]
          (BranchPredictor.init 2 (λ _, []))).2) "a"
  = (1143463945389369 # 4503599627370496)%Q.
Proof. vm_compute. reflexivity. Qed.

(** The feature vectors a predictor is shown lag the outcomes by one
    call. *)
Example recorder_sees_lagged_history :
  BranchPredictor.perceptrons
    (BranchPredictor.run (HP := Recorder) (R := binary64)
       [(true, Some "a"); (false, Some "a"); (true, Some "a")]
       (BranchPredictor.init 2 (λ _, []))).2 !! "a"%string
  = Some [([0%Q; 0%Q], 1); ([1%Q; 0%Q], 0); ([0%Q; 1%Q], 1)].
Proof. vm_compute. reflexivity. Qed.

(** The same four observations: three hits out of four, a ratio that
    binary64 represents. *)
Example get_accuracies_three_of_four :
  match BranchPredictor.get_accuracies (R := binary64)
          (BranchPredictor.run (HP := Recorder) (R := binary64)
             [(false, Some "a"); (false, Some "a"); (true, Some "a");
              (false, Some "a")]
             (BranchPredictor.init 2 (λ _, []))).2 with
  | Ok (acc, _) => acc !! "a"%string = Some (3 # 4)%Q
  | Raise _ => False
  end.
Proof. vm_compute. reflexivity. Qed.

Lemma call_returns_condition_witness :
  let bp := BranchPredictor.init 2 (λ _, TruePerceptron.init 2 1) in
  BranchPredictor.global_history bp ≠ []
  ∧ is_ok (BranchPredictor.predictor_step bp true "loop").1 = true
  ∧ (BranchPredictor.call (R := binary64) true (Some "loop") bp).1 = Ok true.
Proof.
  cbv zeta. split; [discriminate|]. split; [reflexivity|].
  apply (proj1 call_returns_condition).
  - discriminate.
  - intros s [= <-] _. reflexivity.
Defined.

Lemma history_register_invariant_witness :
  let calls := [(true, Some "a"%string); (false, None); (true, Some "b"%string);
                (false, Some "a"%string)] in
  let out :=
    BranchPredictor.run (R := binary64) calls
      (BranchPredictor.init 3 (λ _, TruePerceptron.init 3 1)) in
  (3 ≤ length (pushed calls out.1))%nat
  ∧ pushed calls out.1 = [true; false; true; false]
  ∧ BranchPredictor.global_history out.2 = [0%Q; 1%Q; 0%Q].
Proof.
  cbv zeta.
  destruct (history_register_invariant (R := binary64) 3
              (λ _, TruePerceptron.init 3 1)
              [(true, Some "a"%string); (false, None); (true, Some "b"%string);
               (false, Some "a"%string)])
    as (_ & Hgh & _ & Hall).
  assert (Hk : (3 ≤ length (pushed
                  [(true, Some "a"%string); (false, None);
                   (true, Some "b"%string); (false, Some "a"%string)]
                  (BranchPredictor.run (R := binary64)
                     [(true, Some "a"%string); (false, None);
                      (true, Some "b"%string); (false, Some "a"%string)]
                     (BranchPredictor.init 3
                        (λ _, TruePerceptron.init 3 1))).1))%nat)
    by (vm_compute; lia).
  split; [exact Hk|]. split.
  - apply (Hall (TruePerceptron.well_formed 3)); [lia| |].
    + intros X y p Hp HX. by apply TruePerceptron_update_total.
    + intros _. apply init_well_formed.
  - rewrite (Hgh Hk). reflexivity.
Defined.

Lemma prediction_precedes_push_witness :
  let bp := BranchPredictor.init 2 (λ _, []) in
  let out := BranchPredictor.call (HP := Recorder) (R := binary64)
               true (Some "a") bp in
  "a"%string ≠ ""%string
  ∧ BranchPredictor.perceptrons out.2 !! "a"%string
    = Some [([0%Q; 0%Q], 1)]
  ∧ BranchPredictor.global_history out.2 = [1%Q; 0%Q].
Proof.
  cbv zeta.
  destruct (prediction_precedes_push (HP := Recorder) (R := binary64)
              (BranchPredictor.init 2 (λ _, [])) true "a" ltac:(discriminate))
    as [Hperc Hgh].
  split; [discriminate|]. split.
  - exact Hperc.
  - apply Hgh. reflexivity.
Defined.

Lemma minibatch_round_trigger_witness :
  let l := replicate 17 ([0%Q; 1%Q], 1) in
  let fresh := BpLambdaPerceptron.init (LinearSGD.init 2) 0%Q in
  length l = 17%nat
  ∧ BpLambdaPerceptron.all_mispredicted l fresh = true
  ∧ BpLambdaPerceptron.rounds (BpLambdaPerceptron.updates (take 16 l) fresh).2
    = 0%nat
  ∧ BpLambdaPerceptron.rounds (BpLambdaPerceptron.updates l fresh).2 = 1%nat.
Proof.
  cbv zeta.
  assert (Hall : BpLambdaPerceptron.all_mispredicted
                   (replicate 17 ([0%Q; 1%Q], 1))
                   (BpLambdaPerceptron.init (LinearSGD.init 2) 0%Q) = true)
    by (vm_compute; reflexivity).
  destruct (proj2 minibatch_round_trigger (LinearSGD.init 2) 0%Q
              (replicate 17 ([0%Q; 1%Q], 1)) eq_refl Hall) as [Hnone Hone].
  split; [reflexivity|]. split; [exact Hall|]. split.
  - apply (Hnone 16%nat). lia.
  - exact Hone.
Defined.

Lemma insufficient_data_unreachable_witness :
  let self :=
    {| BpLambdaPerceptron.net := LinearSGD.init 2;
       BpLambdaPerceptron.example_history_x := replicate 16 [0%Q; 1%Q];
       BpLambdaPerceptron.example_history_y := replicate 16 1;
       BpLambdaPerceptron.lamb := 0%Q;
       BpLambdaPerceptron.bs := 16;
       BpLambdaPerceptron.rounds := 0 |} in
  BpLambdaPerceptron.round_due self = true
  ∧ (BpLambdaPerceptron.bs self
     ≤ length (BpLambdaPerceptron.example_history_x self))%nat
  ∧ (BpLambdaPerceptron.learning_round self).1 = Ok tt.
Proof.
  cbv zeta. split; [reflexivity|].
  apply (proj1 insufficient_data_unreachable). reflexivity.
Defined.

(** C8 (as stated, fails): after two hits in three observations the
    accuracy is the double nearest to 2/3, which Python prints as
    0.6666666666666666, and not the ratio itself. *)
Lemma accuracy_is_rounded :
  let self :=
    (BranchPredictor.run (R := binary64)
       [(true, Some "a"%string); (true, Some "a"%string);
        (false, Some "a"%string)]
       (BranchPredictor.init 2 (λ _, TruePerceptron.init 2 1))).2 in
  dd_get 0 (BranchPredictor.correct self) "a" = 2
  ∧ dd_get 0 (BranchPredictor.total self) "a" = 3
  ∧ BranchPredictor.accuracy (R := binary64) self "a"
    = Ok (6004799503160661 # 9007199254740992)%Q
  ∧ ¬ (6004799503160661 # 9007199254740992 == 2 # 3)%Q.
Proof.
  cbv zeta. split; [reflexivity|]. split; [reflexivity|].
  split; [by vm_compute|]. intros Heq. vm_compute in Heq. discriminate.
Qed.

Lemma accuracy_division_witness :
  let unseen :=
    BranchPredictor.set_perceptrons {[ "x"%string := TruePerceptron.init 2 1 ]}
      (BranchPredictor.init 2 (λ _, TruePerceptron.init 2 1)) in
  let seen :=
    (BranchPredictor.run (R := binary64)
       [(true, Some "a"%string); (true, Some "a"%string);
        (false, Some "a"%string)]
       (BranchPredictor.init 2 (λ _, TruePerceptron.init 2 1))).2 in
  (dd_get 0 (BranchPredictor.total unseen) "x" = 0
   ∧ is_Some (BranchPredictor.perceptrons unseen !! "x"%string)
   ∧ BranchPredictor.accuracy (R := binary64) unseen "x"
     = Raise ZeroDivisionError
   ∧ BranchPredictor.get_accuracies (R := binary64) unseen
     = Raise ZeroDivisionError)
  ∧ (dd_get 0 (BranchPredictor.total seen) "a" ≠ 0
     ∧ BranchPredictor.accuracy (R := binary64) seen "a"
       = Ok (@fl binary64 (2 # 3))).
Proof.
  cbv zeta. split.
  - assert (Hx : is_Some
              (({[ "x"%string := TruePerceptron.init 2 1 ]}
                : gmap string TruePerceptron.t) !! "x"%string))
      by (rewrite lookup_singleton_eq; eauto).
    destruct (proj1 (accuracy_division (R := binary64)
                (BranchPredictor.set_perceptrons
                   {[ "x"%string := TruePerceptron.init 2 1 ]}
                   (BranchPredictor.init 2 (λ _, TruePerceptron.init 2 1))))
                "x"%string eq_refl) as [Hacc Hget].
    split; [reflexivity|]. split; [exact Hx|]. split; [exact Hacc|].
    apply Hget. exact Hx.
  - assert (Hnz : dd_get 0
              (BranchPredictor.total
                 (BranchPredictor.run (R := binary64)
                    [(true, Some "a"%string); (true, Some "a"%string);
                     (false, Some "a"%string)]
                    (BranchPredictor.init 2
                       (λ _, TruePerceptron.init 2 1))).2) "a" ≠ 0)
      by (vm_compute; discriminate).
    split; [exact Hnz|].
    rewrite (proj1 (proj2 (accuracy_division (R := binary64) _)) "a"%string Hnz).
    reflexivity.
Defined.

(** C9 (as stated, fails): a call that supplies the empty string as tag
    obtains no predictor and records nothing; it only pushes the outcome. *)
Lemma empty_tag_is_untagged :
  let bp := BranchPredictor.init 2 (λ _, TruePerceptron.init 2 1) in
  let out := BranchPredictor.call (R := binary64) true (Some ""%string) bp in
  out.1 = Ok true
  ∧ BranchPredictor.perceptrons out.2 !! ""%string = None
  ∧ dd_get 0 (BranchPredictor.total out.2) "" = 0
  ∧ BranchPredictor.taken_history out.2 !! ""%string = None
  ∧ BranchPredictor.global_history out.2 = [1%Q; 0%Q].
Proof. repeat split. Qed.

Lemma tagged_call_effects_witness :
  let bp := BranchPredictor.init 2 (λ _, TruePerceptron.init 2 1) in
  let out := BranchPredictor.call (R := binary64) true (Some "loop"%string) bp in
  "loop"%string ≠ ""%string
  ∧ out.1 = Ok true
  ∧ is_Some (BranchPredictor.perceptrons out.2 !! "loop"%string)
  ∧ dd_get 0 (BranchPredictor.total out.2) "loop" = 1
  ∧ dd_get [] (BranchPredictor.taken_history out.2) "loop" = [1].
Proof.
  cbv zeta.
  pose proof (proj1 (proj2 (tagged_call_effects (R := binary64)
                (BranchPredictor.init 2 (λ _, TruePerceptron.init 2 1))
                true (Some "loop"%string))
                "loop"%string eq_refl ltac:(discriminate))
                (1 # 2)%Q _ eq_refl) as Hcall.
  rewrite Hcall.
  split; [discriminate|]. split; [reflexivity|]. split; [|split; reflexivity].
  eexists. reflexivity.
Defined.

Lemma moving_accuracy_bounded_witness :
  let out :=
    BranchPredictor.run (R := binary64)
      [(true, Some "a"); (true, Some "a"); (false, Some "a")]
      (BranchPredictor.init 2 (λ _, TruePerceptron.init 2 1)) in
  @RoundingLaws binary64
  ∧ (0 <= dd_get 0%Q (BranchPredictor.moving_accuracy out.2) "a"
     ∧ dd_get 0%Q (BranchPredictor.moving_accuracy out.2) "a" <= 1)%Q.
Proof.
  cbv zeta. split; [exact binary64_laws|].
  apply (moving_accuracy_bounded (R := binary64) (RL := binary64_laws)).
Defined.

(** * Further properties of the code *)

(** ** The register *)

Section RegisterProofs.
Context {P : Type} {HP : Perceptron P} {R : Rounding}.
Import BranchPredictor.
Implicit Types (self : BranchPredictor.t P).

(** Case analysis on the three outcomes of a call. *)
Ltac by_outcome cond tag self :=
  destruct (call_cases cond tag self) as [?Ht|?s ?e ?perc -> ?Hs ?Hstep
                                         |?s ?p ?perc -> ?Hs ?Hstep].

(** X1: on a register that is not empty [update_history] does not raise;
    the register keeps its length, the outcome is at index 0, every other
    cell holds what its left neighbour held, and nothing else of the state
    changes. *)
Theorem update_history_shifts self (condition : bool) :
  global_history self ≠ [] →
  let out := update_history condition self in
  out.1 = Ok tt
  ∧ length (global_history out.2) = length (global_history self)
  ∧ global_history out.2 !! 0%nat = Some (b2q condition)
  ∧ (∀ i, (S i < length (global_history self))%nat →
          global_history out.2 !! S i = global_history self !! i)
  ∧ out.2 = set_global_history (global_history out.2) self.
Proof.
  intros Hne. cbv zeta. rewrite update_history_spec.
  destruct (global_history self) as [|x gh] eqn:Hgh; [done|].
  cbn [fst snd global_history set_global_history].
  split; [done|]. split; [|split; [|split]].
  - rewrite length_take. simpl. lia.
  - done.
  - intros i Hi. rewrite lookup_take_lt by lia. done.
  - done.
Qed.

(** X2: on an empty register (a predictor built with [n = 0]) no call ever
    returns: the write to cell 0 raises IndexError unless the predictor has
    raised before, and the register stays empty. *)
Theorem empty_register_never_returns (preceptron : string → P)
    (calls : list (bool * option string)) :
  returned (run calls (init 0 preceptron)).1 = []
  ∧ global_history (run calls (init 0 preceptron)).2 = [].
Proof.
  assert (Hgen : ∀ self, global_history self = [] →
            returned (run calls self).1 = []
            ∧ global_history (run calls self).2 = []).
  { induction calls as [|[cond tag] calls IH]; intros self Hgh; [done|].
    simpl.
    destruct (call_history cond tag self) as [Hh Hr].
    assert (Hraise : ∃ e, (call cond tag self).1 = Raise e).
    { by_outcome cond tag self.
      - rewrite push_spec, Hgh. eauto.
      - simpl. eauto.
      - rewrite push_spec. simpl. rewrite Hgh. eauto. }
    destruct Hraise as [e He].
    destruct (call cond tag self) as [r self1]. simpl in *. subst r.
    rewrite Hgh in Hh.
    destruct (IH self1 Hh) as [IH1 IH2].
    destruct (run calls self1) as [rs self2]. simpl in *. done. }
  by apply Hgen.
Qed.

End RegisterProofs.

Lemma update_history_shifts_witness :
  let self := BranchPredictor.init 3 (λ _, TruePerceptron.init 3 1) in
  let out := BranchPredictor.update_history true self in
  BranchPredictor.global_history self ≠ []
  ∧ out.1 = Ok tt
  ∧ BranchPredictor.global_history out.2 = [1%Q; 0%Q; 0%Q].
Proof.
  cbv zeta. split; [discriminate|].
  destruct (update_history_shifts
              (BranchPredictor.init 3 (λ _, TruePerceptron.init 3 1)) true
              ltac:(discriminate)) as (Hok & _).
  split; [exact Hok|reflexivity].
Defined.

(** ** The table of predictors and its statistics *)

Section TableProofs.
Context {P : Type} {HP : Perceptron P} {R : Rounding}.
Import BranchPredictor.
Implicit Types (self : BranchPredictor.t P).

Ltac by_outcome cond tag self :=
  destruct (call_cases cond tag self) as [?Ht|?s ?e ?perc -> ?Hs ?Hstep
                                         |?s ?p ?perc -> ?Hs ?Hstep].

(** The push at the end of a call touches the register only. *)
Ltac after_push cond :=
  match goal with
  | |- context [((update_history cond ≫= _) ?s1).2] =>
      let H := fresh "Hpush" in
      pose proof (push_fields cond s1) as H; cbv zeta in H;
      destruct H as (?Hp1 & ?Hp2 & ?Hp3 & ?Hp4 & ?Hp5 & ?Hp6 & ?Hp7);
      rewrite ?Hp1, ?Hp2, ?Hp3, ?Hp4, ?Hp5, ?Hp6, ?Hp7
  end.

(** X3: a call leaves alone everything that belongs to another tag: its
    counters, its moving accuracy, its two logs and its predictor. *)
Theorem tags_are_independent self (condition : bool) (tag : option string)
    (s : string) :
  tag ≠ Some s →
  let self' := (call condition tag self).2 in
  dd_get 0 (total self') s = dd_get 0 (total self) s
  ∧ dd_get 0 (correct self') s = dd_get 0 (correct self) s
  ∧ moving_accuracy self' !! s = moving_accuracy self !! s
  ∧ taken_history self' !! s = taken_history self !! s
  ∧ prediction_history self' !! s = prediction_history self !! s
  ∧ perceptrons self' !! s = perceptrons self !! s.
Proof.
  intros Hne. cbv zeta.
  by_outcome condition tag self.
  - after_push condition. done.
  - assert (s0 ≠ s) by congruence.
    cbn [snd set_perceptrons set_total total correct moving_accuracy
         taken_history prediction_history perceptrons].
    rewrite dd_get_insert, decide_False, lookup_insert_ne by done. done.
  - assert (s0 ≠ s) by congruence.
    after_push condition.
    cbn [set_perceptrons record total correct moving_accuracy
         taken_history prediction_history perceptrons].
    rewrite dd_get_insert, decide_False, !lookup_insert_ne by done.
    repeat split.
    destruct (Qeq_bool (b2q condition) p); [|done].
    by rewrite dd_get_insert, decide_False.
Qed.

Lemma call_keys cond tag self s :
  is_Some (perceptrons (call cond tag self).2 !! s)
  ↔ is_Some (perceptrons self !! s) ∨ (tag = Some s ∧ s ≠ "").
Proof.
  by_outcome cond tag self.
  - after_push cond. split; [auto|]. intros [?|[-> Hs]]; [done|].
    apply truthy_false in Ht as [?|[= ->]]; done.
  - cbn [snd set_perceptrons perceptrons]. rewrite lookup_insert.
    case_decide; subst.
    + split; [auto|]. eauto.
    + split; [auto|]. intros [?|[[= ?] _]]; done.
  - after_push cond. cbn [set_perceptrons perceptrons].
    rewrite lookup_insert. case_decide; subst.
    + split; [auto|]. eauto.
    + split; [auto|]. intros [?|[[= ?] _]]; done.
Qed.

(** X4: predictors are made on first use and never removed: after a run
    the tags that have a predictor are those that had one before and the
    non-empty tags of the calls made. *)
Theorem predictors_are_the_tags_seen (calls : list (bool * option string)) :
  ∀ self s,
    is_Some (perceptrons (run calls self).2 !! s)
    ↔ is_Some (perceptrons self !! s)
      ∨ (s ≠ "" ∧ ∃ c, (c, Some s) ∈ calls).
Proof.
  induction calls as [|[cond tag] calls IH]; intros self s.
  - simpl. split; [auto|]. intros [?|[_ [c Hc]]]; [done|].
    by apply elem_of_nil in Hc.
  - simpl. pose proof (call_keys cond tag self s) as Hk.
    destruct (call cond tag self) as [r self1]. simpl in Hk.
    specialize (IH self1 s).
    destruct (run calls self1) as [rs self2]. simpl in *.
    rewrite IH, Hk. split.
    + intros [[?|[-> Hs]]|[Hs [c Hc]]]; [by left| |].
      * right. split; [done|]. exists cond. left.
      * right. split; [done|]. exists c. by right.
    + intros [?|[Hs [c Hc]]]; [by left; left|].
      apply elem_of_cons in Hc as [[= -> ->]|Hc].
      * left. right. done.
      * right. eauto.
Qed.

Lemma run_total (calls : list (bool * option string)) :
  ∀ self s,
    dd_get 0 (total (run calls self).2) s
    = dd_get 0 (total self) s
      + (if decide (s = "") then 0
         else Z.of_nat (length (conditions_tagged s calls))).
Proof.
  induction calls as [|[cond tag] calls IH]; intros self s.
  - simpl. case_decide; simpl; lia.
  - simpl. pose proof (call_total cond tag self s) as Ht.
    destruct (call cond tag self) as [r self1]. simpl in Ht.
    specialize (IH self1 s).
    destruct (run calls self1) as [rs self2]. simpl in *.
    rewrite IH, Ht. unfold conditions_tagged.
    rewrite filter_cons. cbn [snd].
    destruct (decide (s = "")) as [->|Hs].
    + destruct (decide (tag = Some "")) as [->|Hne]; [simpl; lia|].
      rewrite bool_decide_eq_false_2 by done.
      rewrite andb_false_r. lia.
    + destruct (decide (tag = Some s)) as [->|Hne].
      * rewrite bool_decide_eq_true_2 by done.
        replace (truthy (Some s)) with true
          by (symmetry; apply truthy_Some; eauto).
        rewrite fmap_cons. simpl. lia.
      * rewrite bool_decide_eq_false_2 by done.
        rewrite andb_false_r. lia.
Qed.

(** X5: the total of a tag counts the calls made with it: over a run it
    grows by the number of calls that carried the tag, and not at all for
    the empty tag; from a new predictor it is that number. *)
Theorem total_counts_calls (calls : list (bool * option string))
    (s : string) :
  (∀ self,
     dd_get 0 (total (run calls self).2) s
     = dd_get 0 (total self) s
       + (if decide (s = "") then 0
          else Z.of_nat (length (conditions_tagged s calls))))
  ∧ (∀ n (preceptron : string → P),
       dd_get 0 (total (run calls (init n preceptron)).2) s
       = if decide (s = "") then 0
         else Z.of_nat (length (conditions_tagged s calls))).
Proof.
  split.
  - intros self. apply run_total.
  - intros n preceptron. rewrite run_total. simpl total.
    rewrite dd_get_empty. lia.
Qed.

(** X6: the two logs of a tag always have the same length; the hits of a
    tag are at most the length of its logs, which is at most its total
    (it is less when a predictor has raised after the total was counted). *)
Theorem logs_go_together (n : nat) (preceptron : string → P)
    (calls : list (bool * option string)) (s : string) :
  let self := (run calls (init n preceptron)).2 in
  length (dd_get [] (taken_history self) s)
  = length (dd_get [] (prediction_history self) s)
  ∧ 0 ≤ dd_get 0 (correct self) s
      ≤ Z.of_nat (length (dd_get [] (taken_history self) s))
  ∧ Z.of_nat (length (dd_get [] (taken_history self) s))
    ≤ dd_get 0 (total self) s.
Proof.
  cbv zeta. revert s.
  apply (run_preserves (λ self, ∀ s,
    length (dd_get [] (taken_history self) s)
    = length (dd_get [] (prediction_history self) s)
    ∧ 0 ≤ dd_get 0 (correct self) s
        ≤ Z.of_nat (length (dd_get [] (taken_history self) s))
    ∧ Z.of_nat (length (dd_get [] (taken_history self) s))
      ≤ dd_get 0 (total self) s)).
  - intros cond tag self Hinv s. specialize (Hinv s).
    by_outcome cond tag self.
    + after_push cond. done.
    + cbn [snd set_perceptrons set_total total correct
           taken_history prediction_history].
      rewrite dd_get_insert. case_decide; subst; lia.
    + after_push cond.
      cbn [set_perceptrons record total correct
           taken_history prediction_history].
      rewrite !dd_get_insert.
      destruct (decide (s0 = s)) as [->|Hne].
      * rewrite !length_app. simpl.
        destruct (Qeq_bool (b2q cond) p);
          rewrite ?dd_get_insert, ?decide_True by done; lia.
      * destruct (Qeq_bool (b2q cond) p);
          rewrite ?dd_get_insert, ?decide_False by done; lia.
  - intros s. simpl. rewrite !dd_get_empty. simpl. lia.
Qed.

Lemma call_taken_ok n (I : P → Prop) cond tag self s :
  (0 < n)%nat →
  (∀ X y p, I p → length X = n →
     is_ok (predict_and_update X y p).1 = true
     ∧ I (predict_and_update X y p).2) →
  shaped n I self → s ≠ "" →
  dd_get [] (taken_history (call cond tag self).2) s
  = dd_get [] (taken_history self) s
    ++ (if decide (tag = Some s) then [Z.b2z cond] else []).
Proof.
  intros Hn HI [Hlen Hall] Hs.
  by_outcome cond tag self.
  - after_push cond. rewrite decide_False, app_nil_r; [done|].
    intros ->. apply truthy_false in Ht as [?|[= ?]]; done.
  - destruct (HI (global_history self) (Z.b2z cond) _ (Hall s0) Hlen) as [Hok _].
    unfold predictor_step in Hstep. by rewrite Hstep in Hok.
  - after_push cond. cbn [set_perceptrons record taken_history].
    rewrite dd_get_insert.
    destruct (decide (s0 = s)) as [->|Hne].
    + rewrite decide_True by done. by destruct cond.
    + rewrite decide_False, app_nil_r by congruence. done.
Qed.

Lemma run_taken_ok n (I : P → Prop) :
  (0 < n)%nat →
  (∀ X y p, I p → length X = n →
     is_ok (predict_and_update X y p).1 = true
     ∧ I (predict_and_update X y p).2) →
  ∀ calls self s, shaped n I self → s ≠ "" →
    dd_get [] (taken_history (run calls self).2) s
    = dd_get [] (taken_history self) s
      ++ (Z.b2z <$> conditions_tagged s calls).
Proof.
  intros Hn HI calls.
  induction calls as [|[cond tag] calls IH]; intros self s Hshape Hs.
  - simpl. by rewrite app_nil_r.
  - simpl.
    pose proof (call_taken_ok n I cond tag self s Hn HI Hshape Hs) as Ht.
    assert (Hshape' : shaped n I (call cond tag self).2).
    { apply call_shaped; [|done]. intros X y p Hp HX. by apply HI. }
    destruct (call cond tag self) as [r self1]. simpl in Ht, Hshape'.
    specialize (IH self1 s Hshape' Hs).
    destruct (run calls self1) as [rs self2]. simpl in *.
    rewrite IH, Ht, <- app_assoc. f_equal.
    unfold conditions_tagged. rewrite filter_cons. cbn [snd].
    by destruct (decide (tag = Some s)).
Qed.

(** X7: with a register of at least one cell and predictors that do not
    raise, the outcome log of a tag is the list of the conditions of the
    calls made with that tag, in the order of the calls, as 1 and 0; the
    total of the tag is its length. *)
Theorem taken_log_is_the_conditions n (I : P → Prop)
    (preceptron : string → P) (calls : list (bool * option string))
    (s : string) :
  (0 < n)%nat →
  (∀ X y p, I p → length X = n →
     is_ok (predict_and_update X y p).1 = true
     ∧ I (predict_and_update X y p).2) →
  (∀ t, I (preceptron t)) →
  s ≠ "" →
  let self := (run calls (init n preceptron)).2 in
  dd_get [] (taken_history self) s = Z.b2z <$> conditions_tagged s calls
  ∧ dd_get 0 (total self) s
    = Z.of_nat (length (dd_get [] (taken_history self) s)).
Proof.
  intros Hn HI Hinit Hs. cbv zeta.
  pose proof (run_taken_ok n I Hn HI calls (init n preceptron) s
                (init_shaped n I preceptron Hinit) Hs) as Htaken.
  simpl in Htaken. rewrite dd_get_empty in Htaken. simpl in Htaken.
  split; [done|].
  rewrite Htaken, length_fmap.
  rewrite run_total, decide_False by done.
  simpl. by rewrite dd_get_empty.
Qed.

Lemma agreements_snoc (t p : list Z) (a b : Z) :
  length t = length p →
  agreements (t ++ [a]) (p ++ [b])
  = agreements t p + (if decide (a = b) then 1 else 0).
Proof.
  intros Hlen. unfold agreements.
  rewrite zip_with_app by done. simpl.
  rewrite filter_app, length_app, filter_cons, filter_nil. cbn [fst snd].
  case_decide; simpl; lia.
Qed.

(** X8: when the predictor only ever answers 0 or 1, the hits of a tag
    are the positions at which its outcome log and its prediction log
    agree. *)
Theorem hits_are_the_agreements (n : nat) (preceptron : string → P)
    (calls : list (bool * option string)) (s : string) :
  (∀ X y p r, (predict_and_update X y p).1 = Ok r → r = 0%Q ∨ r = 1%Q) →
  let self := (run calls (init n preceptron)).2 in
  dd_get 0 (correct self) s
  = agreements (dd_get [] (taken_history self) s)
      (dd_get [] (prediction_history self) s).
Proof.
  intros Hbool. cbv zeta.
  enough (Hinv : ∀ s,
    length (dd_get [] (taken_history (run calls (init n preceptron)).2) s)
    = length (dd_get [] (prediction_history (run calls (init n preceptron)).2) s)
    ∧ dd_get 0 (correct (run calls (init n preceptron)).2) s
      = agreements
          (dd_get [] (taken_history (run calls (init n preceptron)).2) s)
          (dd_get [] (prediction_history (run calls (init n preceptron)).2) s))
    by apply Hinv.
  apply (run_preserves (λ self, ∀ s,
    length (dd_get [] (taken_history self) s)
    = length (dd_get [] (prediction_history self) s)
    ∧ dd_get 0 (correct self) s
      = agreements (dd_get [] (taken_history self) s)
          (dd_get [] (prediction_history self) s))).
  - intros cond tag self Hinv s'. destruct (Hinv s') as [Hlen Hagree].
    by_outcome cond tag self.
    + after_push cond. done.
    + done.
    + after_push cond.
      cbn [set_perceptrons record correct taken_history prediction_history].
      rewrite !dd_get_insert.
      destruct (decide (s0 = s')) as [->|Hne].
      * split; [rewrite !length_app; simpl; lia|].
        rewrite agreements_snoc by done.
        assert (Hp : p = 0%Q ∨ p = 1%Q).
        { apply (Hbool (global_history self) (Z.b2z cond)
                   (perceptron_of self s')).
          unfold predictor_step in Hstep. by rewrite Hstep. }
        destruct Hp as [-> | ->]; destruct cond; simpl;
          rewrite ?dd_get_insert, ?decide_True by done; lia.
      * split; [done|].
        destruct (Qeq_bool (b2q cond) p);
          rewrite ?dd_get_insert, ?decide_False by done; done.
  - intros s'. simpl. by rewrite !dd_get_empty.
Qed.

(** X11: when the predictor raises in a tagged call, the call raises the
    same exception with the total of the tag already counted, while the
    outcome is not pushed into the register and neither the hits, the moving
    accuracy nor the logs change. *)
Theorem raising_predictor_counts_the_call self (condition : bool)
    (s : string) (e : exn) (perc : P) :
  s ≠ "" →
  predict_and_update (global_history self) (Z.b2z condition)
    (perceptron_of self s) = (Raise e, perc) →
  let out := call condition (Some s) self in
  out.1 = Raise e
  ∧ dd_get 0 (total out.2) s = dd_get 0 (total self) s + 1
  ∧ global_history out.2 = global_history self
  ∧ correct out.2 = correct self
  ∧ moving_accuracy out.2 = moving_accuracy self
  ∧ taken_history out.2 = taken_history self
  ∧ prediction_history out.2 = prediction_history self
  ∧ perceptrons out.2 !! s = Some perc.
Proof.
  intros Hs Hstep. cbv zeta.
  rewrite (call_tagged_raise condition s self e perc Hs Hstep).
  cbn [fst snd set_perceptrons set_total total global_history correct
       moving_accuracy taken_history prediction_history perceptrons].
  rewrite dd_get_insert, decide_True, lookup_insert_eq by done. done.
Qed.

Context {RL : RoundingLaws}.

Lemma fl_proper x y : (x == y)%Q → (fl x == fl y)%Q.
Proof.
  intros Hxy. apply Qle_antisym; apply fl_mono; rewrite Hxy; apply Qle_refl.
Qed.

(** X9: after a run [get_accuracies] returns, with the live map of the
    moving accuracies, and every accuracy it reports, the rounded quotient
    of the hits and the total of a tag, lies between 0 and 1: it is 0 for
    a tag with no hit and 1 for a tag with no miss. *)
Theorem accuracies_in_unit_interval (n : nat) (preceptron : string → P)
    (calls : list (bool * option string)) :
  let self := (run calls (init n preceptron)).2 in
  ∃ acc, get_accuracies self = Ok (acc, moving_accuracy self)
         ∧ ∀ s r, acc !! s = Some r →
             (0 <= r ∧ r <= 1)%Q
             ∧ (dd_get 0 (correct self) s = 0 → (r == 0)%Q)
             ∧ (dd_get 0 (correct self) s = dd_get 0 (total self) s →
                (r == 1)%Q).
Proof.
  cbv zeta. set (self := (run calls (init n preceptron)).2).
  assert (Hinv : ∀ s,
            0 ≤ dd_get 0 (correct self) s ≤ dd_get 0 (total self) s
            ∧ (is_Some (perceptrons self !! s) → 1 ≤ dd_get 0 (total self) s)).
  { subst self.
    apply (run_preserves (λ self, ∀ s,
      0 ≤ dd_get 0 (correct self) s ≤ dd_get 0 (total self) s
      ∧ (is_Some (perceptrons self !! s) → 1 ≤ dd_get 0 (total self) s))).
    - intros cond tag self Hinv s. specialize (Hinv s).
      by_outcome cond tag self.
      + after_push cond. done.
      + cbn [snd set_perceptrons set_total total correct perceptrons].
        rewrite dd_get_insert, lookup_insert.
        case_decide; subst; [|done]. split; [lia|]. intros _. lia.
      + after_push cond.
        cbn [set_perceptrons record total correct perceptrons].
        rewrite dd_get_insert, lookup_insert.
        destruct (Qeq_bool (b2q cond) p);
          rewrite ?dd_get_insert; case_decide; subst;
          try done; (split; [lia|]); intros _; lia.
    - intros s. simpl. rewrite !dd_get_empty, lookup_empty.
      split; [lia|]. by intros [? ?]. }
  unfold get_accuracies.
  destruct (accuracies_ok (map_to_list (perceptrons self)).*1 self ∅)
    as (acc & -> & Hlook).
  { intros key Hin. apply elem_of_keys in Hin.
    destruct (Hinv key) as [_ Hone]. specialize (Hone Hin). lia. }
  exists acc. split; [done|]. intros s r. rewrite Hlook.
  case_decide as Hin; [|by rewrite lookup_empty].
  intros [= <-]. apply elem_of_keys in Hin.
  destruct (Hinv s) as [[Hc0 Hct] Hone]. specialize (Hone Hin).
  unfold ratio.
  assert (Ht : (0 < inject_Z (dd_get 0%Z (total self) s))%Q).
  { change 0%Q with (inject_Z 0). rewrite <- Zlt_Qlt. lia. }
  split; [split|split].
  - apply fl_nonneg.
    apply Qle_shift_div_l; [done|]. rewrite Qmult_0_l.
    change 0%Q with (inject_Z 0). rewrite <- Zle_Qle. lia.
  - apply fl_le_1.
    apply Qle_shift_div_r; [done|]. rewrite Qmult_1_l.
    rewrite <- Zle_Qle. lia.
  - intros ->. rewrite (fl_proper _ 0); [apply fl_0|].
    unfold Qdiv. apply Qmult_0_l.
  - intros ->. rewrite (fl_proper _ 1); [apply fl_1|].
    field. lra.
Qed.

(** X10: the moving accuracy of a tag is zero for as long as the tag has
    no hit, whatever the number of its observations. *)
Theorem moving_accuracy_zero_until_first_hit (n : nat)
    (preceptron : string → P) (calls : list (bool * option string))
    (s : string) :
  let self := (run calls (init n preceptron)).2 in
  dd_get 0 (correct self) s = 0 →
  (dd_get 0%Q (moving_accuracy self) s == 0)%Q.
Proof.
  cbv zeta.
  enough (Hinv : ∀ s,
    0 ≤ dd_get 0 (correct (run calls (init n preceptron)).2) s
    ∧ (dd_get 0 (correct (run calls (init n preceptron)).2) s = 0 →
       (dd_get 0%Q (moving_accuracy (run calls (init n preceptron)).2) s
        == 0)%Q))
    by apply Hinv.
  apply (run_preserves (λ self, ∀ s,
    0 ≤ dd_get 0 (correct self) s
    ∧ (dd_get 0 (correct self) s = 0 →
       (dd_get 0%Q (moving_accuracy self) s == 0)%Q))).
  - intros cond tag self Hinv s'. destruct (Hinv s') as [Hpos Hzero].
    by_outcome cond tag self.
    + after_push cond. done.
    + done.
    + after_push cond.
      cbn [set_perceptrons record correct moving_accuracy].
      rewrite dd_get_insert.
      destruct (decide (s0 = s')) as [->|Hne].
      * destruct (Qeq_bool (b2q cond) p).
        -- rewrite dd_get_insert, decide_True by done.
           split; [lia|]. intros ?. lia.
        -- split; [done|]. intros Hc. specialize (Hzero Hc).
           rewrite (fl_proper _ 0); [apply fl_0|].
           rewrite Hzero. apply Qmult_0_l.
      * destruct (Qeq_bool (b2q cond) p);
          rewrite ?dd_get_insert, ?decide_False by done; done.
  - intros s'. simpl. rewrite !dd_get_empty. split; [lia|]. reflexivity.
Qed.

End TableProofs.

(** ** TruePerceptron, beyond one update *)

Lemma np_sign_pos q : (0 < q)%Q → np_sign q = 1%Q.
Proof.
  unfold np_sign, Qlt. destruct q as [[|a|a] d]; simpl; intros Hq; try done.
Qed.

Lemma np_sign_neg q : (q < 0)%Q → np_sign q = (-1)%Q.
Proof.
  unfold np_sign, Qlt. destruct q as [[|a|a] d]; simpl; intros Hq; try done.
Qed.

Lemma scaled_square X :
  binary X → Forall (λ v, (v * v == 1)%Q) (map (λ x, (2 * x - 1)%Q) X).
Proof.
  intros HX. apply Forall_map. eapply Forall_impl; [exact HX|].
  intros x [-> | ->]; reflexivity.
Qed.

(** Adding [c] times the features to the weights moves the score on the
    same features by [c] times their number, when each squares to 1. *)
Lemma sum_Q_shift (c : Q) (w xs : list Q) :
  length w = length xs → Forall (λ v, (v * v == 1)%Q) xs →
  (sum_Q (zip_with Qmult (zip_with (λ w v, w + c * v) w xs) xs)
   == sum_Q (zip_with Qmult w xs) + c * inject_Z (Z.of_nat (length xs)))%Q.
Proof.
  revert xs. induction w as [|w0 w IH]; intros [|v xs] Hlen Hsq;
    simpl in Hlen; try lia.
  - simpl. ring.
  - apply Forall_cons in Hsq as [Hv Hsq].
    cbn [zip_with sum_Q foldr length].
    fold (sum_Q (zip_with Qmult (zip_with (λ w v, w + c * v) w xs) xs))%Q.
    fold (sum_Q (zip_with Qmult w xs)).
    rewrite IH by (done || lia).
    rewrite Nat2Z.inj_succ, <- Z.add_1_r, inject_Z_plus.
    assert (E : ((w0 + c * v) * v == w0 * v + c * (v * v))%Q) by ring.
    rewrite E, Hv. simpl inject_Z at 2. ring.
Qed.

Section TruePerceptronMore.
Import TruePerceptron.

(** X12: a feature vector of the wrong length makes the update raise
    ValueError, and the perceptron is left exactly as it was. *)
Theorem wrong_length_leaves_perceptron k self X y :
  well_formed k self → length X ≠ k →
  predict_and_update X y self = (Raise ValueError, self).
Proof.
  intros [Hn Hw] HX.
  unfold predict_and_update, predict, mbind, M_bind, gets, lift. simpl.
  unfold np_dot. rewrite length_take, length_map, Hw, Hn.
  replace (k `min` (k + 1))%nat with k by lia.
  destruct (Nat.eqb_spec k (length X)) as [Heq|Hne]; [congruence|done].
Qed.

Lemma predict_on_shape eta w b xs :
  length xs = length w →
  predict xs {| n := length w; eta := eta; weights := w ++ [b] |}
  = (Ok (sum_Q (zip_with Qmult w xs) + b)%Q,
     {| n := length w; eta := eta; weights := w ++ [b] |}).
Proof.
  intros Hlen. unfold predict, mbind, M_bind, mret, M_ret, gets, lift.
  simpl. rewrite take_app_length.
  unfold np_dot. rewrite Hlen, Nat.eqb_refl. simpl.
  unfold np_getitem. by rewrite lookup_app_r, Nat.sub_diag by lia.
Qed.

(** What a misprediction does to the score of the same features. *)
Lemma update_shifts_score eta w b X y :
  length X = length w → binary X →
  let self := {| n := length w; eta := eta; weights := w ++ [b] |} in
  let x_scale := map (λ x, (2 * x - 1)%Q) X in
  let y_scale := inject_Z (2 * y - 1) in
  let score := (sum_Q (zip_with Qmult w x_scale) + b)%Q in
  Qeq_bool (np_sign score) y_scale = false →
  ∃ score',
    (predict x_scale (predict_and_update X y self).2).1 = Ok score'
    ∧ (score' == score
               + eta * y_scale * inject_Z (Z.of_nat (length w) + 1))%Q.
Proof.
  intros HX Hbin. cbv zeta. intros Hmis.
  rewrite TruePerceptron_update_refines by done.
  unfold sign_perceptron_update. rewrite Hmis. cbn [snd].
  set (xs := map (λ x, (2 * x - 1)%Q) X) in *.
  set (c := (eta * inject_Z (2 * y - 1))%Q).
  assert (Hxs : length xs = length w) by (subst xs; by rewrite length_map).
  set (w' := zip_with (λ w0 v, (w0 + c * v)%Q) w xs).
  assert (Hw' : length w' = length w)
    by (subst w'; rewrite length_zip_with; lia).
  rewrite <- Hw'. rewrite predict_on_shape by lia.
  eexists. split; [reflexivity|].
  subst w'. rewrite sum_Q_shift by (done || by apply scaled_square).
  rewrite Hxs, inject_Z_plus, Hw'. change (inject_Z 1) with 1%Q.
  subst c. ring.
Qed.

(** The score of integer weights on 0/1 features is an integer, of
    magnitude at most the number of weights times their bound. *)
Lemma integer_score (B : Z) (wz : list Z) : ∀ X,
  Forall (λ z, Z.abs z ≤ B) wz → length X = length wz → binary X →
  ∃ z, (sum_Q (zip_with Qmult (map inject_Z wz)
                 (map (λ x, (2 * x - 1)%Q) X)) == inject_Z z)%Q
       ∧ Z.abs z ≤ Z.of_nat (length wz) * B.
Proof.
  induction wz as [|w0 wz IH]; intros [|x X] Hb Hlen Hbin;
    simpl in Hlen; try lia.
  - exists 0. split; [reflexivity|]. simpl. lia.
  - apply Forall_cons in Hb as [Hw0 Hb].
    apply Forall_cons in Hbin as [Hx Hbin].
    destruct (IH X Hb ltac:(lia) Hbin) as (z & Hz & Hbound).
    cbn [map zip_with sum_Q foldr length].
    fold (sum_Q (zip_with Qmult (map inject_Z wz)
                   (map (λ x, (2 * x - 1)%Q) X))).
    rewrite Nat2Z.inj_succ.
    destruct Hx as [-> | ->].
    + exists (- w0 + z). split; [|lia].
      rewrite Hz, inject_Z_plus, inject_Z_opp. ring.
    + exists (w0 + z). split; [|lia].
      rewrite Hz, inject_Z_plus. ring.
Qed.

(** X13: with the default learning rate 1 and integer weights, an update
    that mispredicted on 0/1 features moves the score of the same features
    by [n + 1] in the direction of the label: up when the branch was taken,
    down when it was not.  Both scores are integers below [2^53] in
    magnitude, as is every sum on the way, so the doubles of numpy carry
    them exactly ([binary64_exact_on_integers]). *)
Theorem misprediction_moves_score (B bz : Z) (wz : list Z) X (y : bool) :
  Forall (λ z, Z.abs z ≤ B) (bz :: wz) →
  (Z.of_nat (length wz) + 1) * (B + 1) < 2 ^ 53 →
  length X = length wz → binary X →
  let self := {| n := length wz; eta := 1;
                 weights := map inject_Z wz ++ [inject_Z bz] |} in
  let x_scale := map (λ x, (2 * x - 1)%Q) X in
  let y_scale := 2 * Z.b2z y - 1 in
  let score := (sum_Q (zip_with Qmult (map inject_Z wz) x_scale)
                + inject_Z bz)%Q in
  Qeq_bool (np_sign score) (inject_Z y_scale) = false →
  ∃ (z z' : Z) (score' : Q),
    (score == inject_Z z)%Q
    ∧ (predict x_scale (predict_and_update X (Z.b2z y) self).2).1 = Ok score'
    ∧ (score' == inject_Z z')%Q
    ∧ z' = z + y_scale * (Z.of_nat (length wz) + 1)
    ∧ (if y then z < z' else z' < z)
    ∧ Z.abs z < 2 ^ 53 ∧ Z.abs z' < 2 ^ 53.
Proof.
  intros Hb Hsize HX Hbin. cbv zeta. intros Hmis.
  apply Forall_cons in Hb as [Hbz Hb].
  destruct (integer_score B wz X Hb HX Hbin) as (z & Hz & Hzb).
  assert (Hlen : length (map inject_Z wz) = length wz) by apply length_map.
  pose proof (update_shifts_score 1 (map inject_Z wz) (inject_Z bz) X
                (Z.b2z y)) as Hshift.
  rewrite Hlen in Hshift. cbv zeta in Hshift.
  destruct (Hshift HX Hbin Hmis) as (score' & Hpred & Hscore).
  exists (z + bz), (z + bz + (2 * Z.b2z y - 1) * (Z.of_nat (length wz) + 1)),
    score'.
  split; [by rewrite Hz, inject_Z_plus|].
  split; [done|].
  split.
  { rewrite Hscore, Hz, !inject_Z_plus, inject_Z_mult, inject_Z_plus. ring. }
  split; [done|].
  assert (HB : 0 ≤ B) by lia.
  destruct y; simpl Z.b2z; (split; [lia|]); nia.
Qed.

(** X14: a fresh perceptron with a positive [eta] learns an example in one
    update: a second update on the same features and label returns the
    label and changes nothing. *)
Theorem fresh_perceptron_learns_in_one_update k eta X (y : bool) :
  (0 < eta)%Q → length X = k → binary X →
  let once := (predict_and_update X (Z.b2z y) (init k eta)).2 in
  ∃ d, predict_and_update X (Z.b2z y) once = (Ok d, once)
       ∧ (d == b2q y)%Q.
Proof.
  intros Heta HX Hbin. cbv zeta. unfold init. subst k.
  replace (replicate (length X + 1) 0%Q)
    with (replicate (length X) 0%Q ++ [0%Q])
    by (rewrite Nat.add_1_r; symmetry; apply replicate_cons_app).
  set (w := replicate (length X) 0%Q).
  assert (Hw : length w = length X) by (subst w; apply length_replicate).
  rewrite <- Hw. assert (HX : length X = length w) by done.
  assert (Hz : np_sign
            (sum_Q (zip_with Qmult w (map (λ v : Q, (2 * v - 1)%Q) X)) + 0)
          = 0%Q).
  { unfold np_sign. simpl. subst w. rewrite sum_Q_zero_weights. reflexivity. }
  assert (Hmis : Qeq_bool
            (np_sign
               (sum_Q (zip_with Qmult w (map (λ v : Q, (2 * v - 1)%Q) X)) + 0))
            (inject_Z (2 * Z.b2z y - 1)) = false).
  { rewrite Hz. by destruct y. }
  destruct (update_shifts_score eta w 0%Q X (Z.b2z y) HX Hbin Hmis)
    as (score' & Hpred & Hscore).
  set (xs := map (λ x, (2 * x - 1)%Q) X) in *.
  set (w' := zip_with (λ w0 v, (w0 + eta * inject_Z (2 * Z.b2z y - 1) * v)%Q)
               w xs).
  set (b' := (0 + eta * inject_Z (2 * Z.b2z y - 1))%Q).
  assert (Honce :
    (predict_and_update X (Z.b2z y)
       {| n := length w; eta := eta; weights := w ++ [0%Q] |}).2
    = {| n := length w; eta := eta; weights := w' ++ [b'] |}).
  { rewrite TruePerceptron_update_refines by done.
    unfold sign_perceptron_update. fold xs. by rewrite Hmis. }
  rewrite Honce in Hpred |- *.
  assert (Hw' : length w' = length w)
    by (subst w' xs; rewrite length_zip_with, length_map; lia).
  rewrite <- Hw' in Hpred |- *.
  rewrite predict_on_shape in Hpred
    by (subst xs; rewrite length_map; lia).
  cbn [fst] in Hpred. injection Hpred as Hs'.
  rewrite TruePerceptron_update_refines by lia.
  unfold sign_perceptron_update. fold xs. rewrite Hs'.
  assert (Hzero : (sum_Q (zip_with Qmult w xs) + 0 == 0)%Q).
  { apply np_sign_zero. exact Hz. }
  rewrite Hzero, Qplus_0_l in Hscore.
  assert (Hk : (0 < inject_Z (Z.of_nat (length w) + 1))%Q).
  { change 0%Q with (inject_Z 0). rewrite <- Zlt_Qlt. lia. }
  destruct y; simpl Z.b2z in *; simpl inject_Z in *.
  - assert (Hpos : (0 < score')%Q).
    { rewrite Hscore. apply Qmult_lt_0_compat; [|done].
      rewrite Qmult_1_r. done. }
    rewrite (np_sign_pos _ Hpos). simpl.
    eexists. split; [reflexivity|]. reflexivity.
  - assert (Hneg : (score' < 0)%Q).
    { rewrite Hscore.
      assert (E : (eta * (-1 # 1) * inject_Z (Z.of_nat (length w) + 1)
                   == - (eta * inject_Z (Z.of_nat (length w) + 1)))%Q) by ring.
      rewrite E.
      pose proof (Qmult_lt_0_compat _ _ Heta Hk). lra. }
    rewrite (np_sign_neg _ Hneg). simpl.
    eexists. split; [reflexivity|]. reflexivity.
Qed.

End TruePerceptronMore.

(** X15: under the orchestrator every [TruePerceptron] of the table, at
    every moment of every run, has the [n] of the register and [n + 1]
    weights, and the register has [n] cells: the feature vector always has
    the length the predictor was built for. *)
Theorem table_keeps_feature_length `{Rounding} (n : nat) (eta : Q)
    (calls : list (bool * option string)) (s : string)
    (p : TruePerceptron.t) :
  let self :=
    (BranchPredictor.run calls
       (BranchPredictor.init n (λ _, TruePerceptron.init n eta))).2 in
  length (BranchPredictor.global_history self) = n
  ∧ (BranchPredictor.perceptrons self !! s = Some p →
     TruePerceptron.well_formed n p).
Proof.
  cbv zeta.
  assert (Hshape : BranchPredictor.shaped n (TruePerceptron.well_formed n)
            (BranchPredictor.run calls
               (BranchPredictor.init n (λ _, TruePerceptron.init n eta))).2).
  { apply (run_preserves (BranchPredictor.shaped n (TruePerceptron.well_formed n))).
    - intros cond tag self Hs. apply call_shaped; [|done].
      intros X y q Hq HX. by apply TruePerceptron_update_total.
    - apply init_shaped. intros _. apply init_well_formed. }
  destruct Hshape as [Hlen Hall]. split; [done|].
  intros Hp. specialize (Hall s).
  unfold BranchPredictor.perceptron_of in Hall. by rewrite Hp in Hall.
Qed.

(** ** BpLambdaPerceptron: the replay buffer *)

Section BpLambdaPerceptronMore.
Context {Net : Type} {T : TorchNet Net}.
Import BpLambdaPerceptron.
Implicit Types (self : BpLambdaPerceptron.t Net).

Lemma update_buffer X y self :
  paired self →
  let self' := (predict_and_update X y self).2 in
  example_history_x self'
  = example_history_x self ++ (if mispredicted X y self then [X] else [])
  ∧ example_history_y self'
    = example_history_y self ++ (if mispredicted X y self then [y] else [])
  ∧ rounds self' = (rounds self + if round_due self then 1 else 0)%nat
  ∧ bs self' = bs self.
Proof.
  intros Hp. cbv zeta.
  destruct (BpLambda_update_spec X y self Hp)
    as (d & Hr & Hrounds & Hbs & _ & Hbuf).
  unfold mispredicted. rewrite Hr, b2q_neq_label.
  destruct (negb _); injection Hbuf as -> ->;
    rewrite ?app_nil_r; done.
Qed.

(** X16: the replay is driven by errors: an update appends its example
    and label to the buffer exactly when the decision it returns differs
    from the label, and otherwise leaves the buffer as it is; the two lists
    of the buffer stay of one length. *)
Theorem replay_is_error_driven X y self :
  paired self →
  let self' := (predict_and_update X y self).2 in
  example_history_x self'
  = example_history_x self ++ (if mispredicted X y self then [X] else [])
  ∧ example_history_y self'
    = example_history_y self ++ (if mispredicted X y self then [y] else [])
  ∧ paired self'.
Proof.
  intros Hp. cbv zeta.
  destruct (update_buffer X y self Hp) as (Hx & Hy & _).
  split; [done|]. split; [done|]. by apply BpLambda_update_paired.
Qed.

(** X17: nothing is ever evicted: over any sequence of updates the buffer
    only grows at its end, by at most one example per update, and at most
    one round fires per update. *)
Theorem replay_buffer_only_grows (l : list (list Q * Z)) :
  ∀ self, paired self →
    let self' := (updates l self).2 in
    example_history_x self `prefix_of` example_history_x self'
    ∧ example_history_y self `prefix_of` example_history_y self'
    ∧ paired self'
    ∧ (length (example_history_x self')
       ≤ length (example_history_x self) + length l)%nat
    ∧ (rounds self ≤ rounds self' ≤ rounds self + length l)%nat.
Proof.
  induction l as [|[X y] l IH]; intros self Hp; cbv zeta.
  - simpl. repeat split; (done || lia).
  - simpl.
    destruct (update_buffer X y self Hp) as (Hx & Hy & Hr & _).
    pose proof (BpLambda_update_paired X y self Hp) as Hp'.
    destruct (predict_and_update X y self) as [r self1]. simpl in *.
    specialize (IH self1 Hp'). cbv zeta in IH.
    destruct (updates l self1) as [rs self2]. simpl in *.
    destruct IH as (Hpx & Hpy & Hp2 & Hlen & Hrounds).
    rewrite Hx in Hpx, Hlen. rewrite Hy in Hpy. rewrite Hr in Hrounds.
    split; [by eapply prefix_app_l|].
    split; [by eapply prefix_app_l|].
    split; [done|].
    rewrite length_app in Hlen.
    destruct (mispredicted X y self); destruct (round_due self);
      simpl in *; lia.
Qed.

(** X18: the count test looks at the buffer size alone, so a round that
    is due fires again at every update until an update is mispredicted:
    after a due round and a correct decision the next round is due too. *)
Theorem round_fires_until_buffer_grows X y self :
  paired self → round_due self = true → mispredicted X y self = false →
  let self' := (predict_and_update X y self).2 in
  rounds self' = S (rounds self) ∧ round_due self' = true.
Proof.
  intros Hp Hdue Hok. cbv zeta.
  destruct (update_buffer X y self Hp) as (Hx & _ & Hr & Hbs).
  rewrite Hok, app_nil_r in Hx. rewrite Hdue in Hr.
  split; [lia|]. unfold round_due in *. by rewrite Hx, Hbs.
Qed.

Lemma Qgt_bool_plus_0 q h : Qgt_bool (q + 0) h = Qgt_bool q h.
Proof.
  unfold Qgt_bool. f_equal. apply eq_true_iff_eq.
  rewrite !Qle_bool_iff. by rewrite Qplus_0_r.
Qed.

(** X19: on a feature vector that is not in the buffer the margin term is
    zero and the decision is the one [BpPerceptron] takes on the same net:
    the score against the threshold 0.5, a score of exactly 0.5 giving 0. *)
Theorem unseen_features_decide_as_plain X y self :
  list_index X (example_history_x self) = None →
  (predict_and_update X y self).1
  = (BpPerceptron.predict_and_update X y (BpPerceptron.mk (net self))).1
  ∧ (predict_and_update X y self).1
    = Ok (b2q (negb (Qle_bool (forward (zero_grad (net self)) X) (1 # 2)))).
Proof.
  intros Hnew.
  assert (Hres : (predict_and_update X y self).1
    = Ok (b2q (Qgt_bool (forward (zero_grad (net self)) X) (1 # 2)))).
  { unfold predict_and_update, predict, lambda_term, mbind, M_bind, mret,
      M_ret, modify, gets.
    cbn beta iota. unfold id. cbn [with_net example_history_x].
    rewrite Hnew. cbn [with_net net fst snd].
    destruct (round_due _) eqn:Hdue.
    - apply round_due_enough in Hdue.
      unfold learning_round, mbind, M_bind, mret, M_ret, modify, gets, raise,
        id.
      cbn [with_net count_round example_history_x bs] in *.
      replace (length (example_history_x self) <? bs self)%nat with false
        by (symmetry; apply Nat.ltb_ge; lia).
      rewrite Qgt_bool_plus_0. by destruct (negb _).
    - rewrite Qgt_bool_plus_0. by destruct (negb _). }
  split; [|exact Hres].
  rewrite Hres. reflexivity.
Qed.

End BpLambdaPerceptronMore.

(** ** The further properties at concrete inputs *)

Lemma tags_are_independent_witness :
  let self :=
    (BranchPredictor.run (R := binary64) [(true, Some "b"%string)]
       (BranchPredictor.init 2 (λ _, TruePerceptron.init 2 1))).2 in
  let self' :=
    (BranchPredictor.call (R := binary64) false (Some "a"%string) self).2 in
  Some "a"%string ≠ Some "b"%string
  ∧ dd_get 0 (BranchPredictor.total self') "b"
    = dd_get 0 (BranchPredictor.total self) "b"
  ∧ BranchPredictor.perceptrons self' !! "b"%string
    = BranchPredictor.perceptrons self !! "b"%string.
Proof.
  cbv zeta.
  destruct (tags_are_independent (R := binary64)
              (BranchPredictor.run (R := binary64) [(true, Some "b"%string)]
                 (BranchPredictor.init 2 (λ _, TruePerceptron.init 2 1))).2
              false (Some "a"%string) "b" ltac:(discriminate))
    as (Htotal & _ & _ & _ & _ & Hperc).
  split; [discriminate|]. split; [exact Htotal|exact Hperc].
Defined.

Lemma taken_log_is_the_conditions_witness :
  let self :=
    (BranchPredictor.run (R := binary64)
       [(true, Some "a"%string); (false, Some "b"%string);
        (false, Some "a"%string)]
       (BranchPredictor.init 2 (λ _, TruePerceptron.init 2 1))).2 in
  (0 < 2)%nat ∧ "a"%string ≠ ""%string
  ∧ dd_get [] (BranchPredictor.taken_history self) "a" = [1; 0]
  ∧ dd_get 0 (BranchPredictor.total self) "a" = 2.
Proof.
  cbv zeta.
  destruct (taken_log_is_the_conditions (R := binary64) 2
              (TruePerceptron.well_formed 2) (λ _, TruePerceptron.init 2 1)
              [(true, Some "a"%string); (false, Some "b"%string);
               (false, Some "a"%string)] "a"
              ltac:(lia)
              (λ X y p Hp HX, TruePerceptron_update_total 2 p X y Hp HX)
              (λ _, init_well_formed 2 1)
              ltac:(discriminate)) as [Htaken Htotal].
  split; [lia|]. split; [discriminate|]. split.
  - exact Htaken.
  - rewrite Htotal, Htaken. reflexivity.
Defined.

Lemma hits_are_the_agreements_witness :
  let self :=
    (BranchPredictor.run (HP := Recorder) (R := binary64)
       [(false, Some "a"%string); (false, Some "a"%string);
        (true, Some "a"%string); (false, Some "a"%string)]
       (BranchPredictor.init 2 (λ _, []))).2 in
  dd_get 0 (BranchPredictor.correct self) "a" = 3
  ∧ agreements (dd_get [] (BranchPredictor.taken_history self) "a")
      (dd_get [] (BranchPredictor.prediction_history self) "a") = 3.
Proof.
  cbv zeta.
  pose proof (hits_are_the_agreements (HP := Recorder) (R := binary64) 2
                (λ _, [])
                [(false, Some "a"%string); (false, Some "a"%string);
                 (true, Some "a"%string); (false, Some "a"%string)] "a"
                (λ X y p r (Hr : Ok 0%Q = Ok r),
                   or_introl (f_equal (λ o, match o with
                                            | Ok q => q
                                            | Raise _ => 0%Q
                                            end) (eq_sym Hr)))) as Hhits.
  split; [reflexivity|]. rewrite <- Hhits. reflexivity.
Defined.

Lemma moving_accuracy_zero_until_first_hit_witness :
  let self :=
    (BranchPredictor.run (R := binary64)
       [(true, Some "a"%string); (false, None)]
       (BranchPredictor.init 2 (λ _, TruePerceptron.init 2 1))).2 in
  @RoundingLaws binary64
  ∧ dd_get 0 (BranchPredictor.correct self) "a" = 0
  ∧ (dd_get 0%Q (BranchPredictor.moving_accuracy self) "a" == 0)%Q.
Proof.
  cbv zeta. split; [exact binary64_laws|]. split; [reflexivity|].
  apply (moving_accuracy_zero_until_first_hit (R := binary64)
           (RL := binary64_laws)).
  reflexivity.
Defined.

Lemma raising_predictor_counts_the_call_witness :
  let self := BranchPredictor.init 2 (λ _, TruePerceptron.init 3 1) in
  let out := BranchPredictor.call (R := binary64) true (Some "a"%string) self in
  "a"%string ≠ ""%string
  ∧ (BranchPredictor.predictor_step self true "a").1 = Raise ValueError
  ∧ out.1 = Raise ValueError
  ∧ dd_get 0 (BranchPredictor.total out.2) "a" = 1
  ∧ BranchPredictor.global_history out.2 = [0%Q; 0%Q]
  ∧ BranchPredictor.taken_history out.2 = ∅.
Proof.
  cbv zeta.
  destruct (raising_predictor_counts_the_call (R := binary64)
              (BranchPredictor.init 2 (λ _, TruePerceptron.init 3 1))
              true "a" ValueError (TruePerceptron.init 3 1)
              ltac:(discriminate) eq_refl)
    as (Hr & Htotal & Hgh & _ & _ & Htaken & _).
  split; [discriminate|]. split; [reflexivity|].
  split; [exact Hr|]. split; [exact Htotal|]. split; [exact Hgh|exact Htaken].
Defined.

Lemma wrong_length_leaves_perceptron_witness :
  TruePerceptron.well_formed 2 (TruePerceptron.init 2 1)
  ∧ length [1%Q] ≠ 2%nat
  ∧ TruePerceptron.predict_and_update [1%Q] 1 (TruePerceptron.init 2 1)
    = (Raise ValueError, TruePerceptron.init 2 1).
Proof.
  split; [split; reflexivity|]. split; [discriminate|].
  apply (wrong_length_leaves_perceptron 2).
  - split; reflexivity.
  - discriminate.
Defined.

Lemma misprediction_moves_score_witness :
  Forall (λ z, Z.abs z ≤ 2) [1; 1; -2]
  ∧ (Z.of_nat (length [1; -2]) + 1) * (2 + 1) < 2 ^ 53
  ∧ length [0%Q; 1%Q] = length [1; -2]
  ∧ binary [0%Q; 1%Q]
  ∧ ∃ score',
      (TruePerceptron.predict [(2 * 0 - 1)%Q; (2 * 1 - 1)%Q]
         (TruePerceptron.predict_and_update [0%Q; 1%Q] 1
            (TruePerceptron.mk 2 1
               [inject_Z 1; inject_Z (-2); inject_Z 1])).2).1 = Ok score'
      ∧ (score' == 1)%Q.
Proof.
  assert (Hbin : binary [0%Q; 1%Q])
    by (unfold binary; constructor; [by left|];
        constructor; [by right|]; constructor).
  assert (Hb : Forall (λ z, Z.abs z ≤ 2) [1; 1; -2])
    by (repeat constructor; simpl; lia).
  assert (Hsize : (Z.of_nat (length [1; -2]) + 1) * (2 + 1) < 2 ^ 53)
    by (vm_compute; reflexivity).
  split; [exact Hb|]. split; [exact Hsize|].
  split; [reflexivity|]. split; [exact Hbin|].
  destruct (misprediction_moves_score 2 1 [1; -2] [0%Q; 1%Q] true
              Hb Hsize eq_refl Hbin eq_refl)
    as (z & z' & score' & Hz & Hpred & Hscore & Hz' & _).
  exists score'. split; [exact Hpred|].
  rewrite Hscore, Hz'. simpl in Hz.
  assert (Hzv : z = -2).
  { unfold Qeq in Hz. simpl in Hz. lia. }
  rewrite Hzv. reflexivity.
Defined.

Lemma fresh_perceptron_learns_in_one_update_witness :
  let once :=
    (TruePerceptron.predict_and_update [0%Q; 1%Q] 1
       (TruePerceptron.init 2 1)).2 in
  (0 < 1)%Q ∧ length [0%Q; 1%Q] = 2%nat ∧ binary [0%Q; 1%Q]
  ∧ ∃ d, TruePerceptron.predict_and_update [0%Q; 1%Q] 1 once = (Ok d, once)
         ∧ (d == 1)%Q.
Proof.
  cbv zeta.
  assert (Hbin : binary [0%Q; 1%Q])
    by (unfold binary; constructor; [by left|];
        constructor; [by right|]; constructor).
  split; [reflexivity|]. split; [reflexivity|]. split; [exact Hbin|].
  apply (fresh_perceptron_learns_in_one_update 2 1 [0%Q; 1%Q] true
           eq_refl eq_refl Hbin).
Defined.

Lemma replay_is_error_driven_witness :
  let fresh := BpLambdaPerceptron.init (LinearSGD.init 2) 0%Q in
  let self' := (BpLambdaPerceptron.predict_and_update [0%Q; 1%Q] 1 fresh).2 in
  BpLambdaPerceptron.paired fresh
  ∧ BpLambdaPerceptron.mispredicted [0%Q; 1%Q] 1 fresh = true
  ∧ BpLambdaPerceptron.example_history_x self' = [[0%Q; 1%Q]]
  ∧ BpLambdaPerceptron.example_history_y self' = [1].
Proof.
  cbv zeta.
  destruct (replay_is_error_driven [0%Q; 1%Q] 1
              (BpLambdaPerceptron.init (LinearSGD.init 2) 0%Q) eq_refl)
    as (Hx & Hy & _).
  split; [reflexivity|]. split; [reflexivity|].
  split; [exact Hx|exact Hy].
Defined.

Lemma replay_buffer_only_grows_witness :
  let fresh := BpLambdaPerceptron.init (LinearSGD.init 2) 0%Q in
  let self' :=
    (BpLambdaPerceptron.updates [([0%Q; 1%Q], 1); ([1%Q; 1%Q], 0)] fresh).2 in
  BpLambdaPerceptron.paired fresh
  ∧ BpLambdaPerceptron.paired self'
  ∧ (length (BpLambdaPerceptron.example_history_x self') ≤ 0 + 2)%nat.
Proof.
  cbv zeta.
  destruct (replay_buffer_only_grows [([0%Q; 1%Q], 1); ([1%Q; 1%Q], 0)]
              (BpLambdaPerceptron.init (LinearSGD.init 2) 0%Q) eq_refl)
    as (_ & _ & Hp & Hlen & _).
  split; [reflexivity|]. split; [exact Hp|exact Hlen].
Defined.

Lemma round_fires_until_buffer_grows_witness :
  let self :=
    {| BpLambdaPerceptron.net := LinearSGD.init 2;
       BpLambdaPerceptron.example_history_x := replicate 16 [0%Q; 1%Q];
       BpLambdaPerceptron.example_history_y := replicate 16 1;
       BpLambdaPerceptron.lamb := 0%Q;
       BpLambdaPerceptron.bs := 16;
       BpLambdaPerceptron.rounds := 0 |} in
  let self' := (BpLambdaPerceptron.predict_and_update [0%Q; 1%Q] 0 self).2 in
  BpLambdaPerceptron.paired self
  ∧ BpLambdaPerceptron.round_due self = true
  ∧ BpLambdaPerceptron.mispredicted [0%Q; 1%Q] 0 self = false
  ∧ BpLambdaPerceptron.rounds self' = 1%nat
  ∧ BpLambdaPerceptron.round_due self' = true.
Proof.
  cbv zeta.
  assert (Hok : BpLambdaPerceptron.mispredicted [0%Q; 1%Q] 0
            {| BpLambdaPerceptron.net := LinearSGD.init 2;
               BpLambdaPerceptron.example_history_x := replicate 16 [0%Q; 1%Q];
               BpLambdaPerceptron.example_history_y := replicate 16 1;
               BpLambdaPerceptron.lamb := 0%Q;
               BpLambdaPerceptron.bs := 16;
               BpLambdaPerceptron.rounds := 0 |} = false)
    by (vm_compute; reflexivity).
  split; [reflexivity|]. split; [reflexivity|]. split; [exact Hok|].
  apply (round_fires_until_buffer_grows [0%Q; 1%Q] 0
           {| BpLambdaPerceptron.net := LinearSGD.init 2;
              BpLambdaPerceptron.example_history_x := replicate 16 [0%Q; 1%Q];
              BpLambdaPerceptron.example_history_y := replicate 16 1;
              BpLambdaPerceptron.lamb := 0%Q;
              BpLambdaPerceptron.bs := 16;
              BpLambdaPerceptron.rounds := 0 |} eq_refl eq_refl Hok).
Defined.

Lemma unseen_features_decide_as_plain_witness :
  let fresh := BpLambdaPerceptron.init (LinearSGD.init 2) (1 # 2)%Q in
  list_index [0%Q; 1%Q] (BpLambdaPerceptron.example_history_x fresh) = None
  ∧ (BpLambdaPerceptron.predict_and_update [0%Q; 1%Q] 1 fresh).1
    = (BpPerceptron.predict_and_update [0%Q; 1%Q] 1
         (BpPerceptron.mk (LinearSGD.init 2))).1.
Proof.
  cbv zeta. split; [reflexivity|].
  apply (unseen_features_decide_as_plain [0%Q; 1%Q] 1
           (BpLambdaPerceptron.init (LinearSGD.init 2) (1 # 2)%Q) eq_refl).
Defined.

Lemma accuracies_in_unit_interval_witness :
  let self :=
    (BranchPredictor.run (R := binary64)
       [(true, Some "a"%string); (true, Some "a"%string);
        (false, Some "a"%string)]
       (BranchPredictor.init 2 (λ _, TruePerceptron.init 2 1))).2 in
  @RoundingLaws binary64
  ∧ ∃ acc,
      BranchPredictor.get_accuracies (R := binary64) self
      = Ok (acc, BranchPredictor.moving_accuracy self)
      ∧ ∀ r, acc !! "a"%string = Some r → (0 <= r ∧ r <= 1)%Q.
Proof.
  cbv zeta. split; [exact binary64_laws|].
  destruct (accuracies_in_unit_interval (R := binary64) (RL := binary64_laws)
              2 (λ _, TruePerceptron.init 2 1)
              [(true, Some "a"%string); (true, Some "a"%string);
               (false, Some "a"%string)])
    as (acc & Hget & Hacc).
  exists acc. split; [exact Hget|].
  intros r Hr. exact (proj1 (Hacc "a"%string r Hr)).
Defined.
